(** * youtube-transcript-mcp: the transcript engine of [server.py]

    A shallow embedding of [src/server.py] and the properties its
    specification states about it.

    Conventions of the embedding.
    - Python [str] is [string]; [str.lower] is a library function and is
      kept abstract (the Section variable [lower]), so every theorem holds for
      whatever lowercasing the interpreter implements.  [ascii_lower] is a
      concrete instance used in the worked examples.
    - Segment start times are Python floats.  They are embedded as exact
      rationals ([Q]): the comparisons are those of the source, additions and
      subtractions are exact (rounding is not modelled).  Python [==], [<],
      [<=] on numbers are [Qeq_bool], [Qlt_bool], [Qle_bool].  Statements
      about the value of a sum or a difference are made where binary64
      computes it exactly ([t - w] for an integer [0 <= w <= t]; [//], [%]
      and [int()] on non-negative values below 2^53); the other statements
      rest on comparisons only.
    - Parameters annotated [int] ([context_window], [start_time],
      [end_time]) are [Z], injected into [Q] where the source mixes them with
      floats.
    - Code that may raise returns a [result]; [try ... except Exception] is
      [try_except].
    - The network and the libraries ([urlparse], [parse_qs], [requests],
      [YouTubeTranscriptApi]) are the fields of a [World]. *)

From Stdlib Require Import List Bool Arith ZArith QArith Qround Lia Lqa.
From Stdlib Require Import Ascii String DecimalString DecimalPos Sorted.
Import ListNotations.

Close Scope Q_scope.
Open Scope list_scope.
Open Scope string_scope.

(** ** Strings *)

(** Python [q in t] on strings. *)
Fixpoint str_in (q t : string) : bool :=
  if prefix q t then true
  else match t with
       | EmptyString => false
       | String _ t' => str_in q t'
       end.

(** What [q in t] means: [q] occurs somewhere inside [t]. *)
Definition is_substring (q t : string) : Prop :=
  exists pre post : string, t = pre ++ q ++ post.

(** A non-empty [str] is truthy. *)
Definition str_truthy (s : string) : bool :=
  match s with EmptyString => false | String _ _ => true end.

(** [s.split("/")]: the pieces between the separators, never an empty list. *)
Fixpoint split_on (sep : ascii) (s : string) : list string :=
  match s with
  | EmptyString => [EmptyString]
  | String c s' =>
      if Ascii.eqb c sep then EmptyString :: split_on sep s'
      else match split_on sep s' with
           | piece :: pieces => String c piece :: pieces
           | [] => [String c EmptyString]
           end
  end.

(** [sep.join(parts)]. *)
Fixpoint join (sep : string) (parts : list string) : string :=
  match parts with
  | [] => ""
  | [p] => p
  | p :: ps => p ++ sep ++ join sep ps
  end.

(** [s * n] for a string [s]. *)
Fixpoint str_repeat (s : string) (n : nat) : string :=
  match n with
  | O => ""
  | S n' => s ++ str_repeat s n'
  end.

(** One instance of [str.lower], for ASCII text. *)
Definition ascii_lower_char (c : ascii) : ascii :=
  let n := nat_of_ascii c in
  if andb (65 <=? n)%nat (n <=? 90)%nat then ascii_of_nat (n + 32) else c.

Fixpoint ascii_lower (s : string) : string :=
  match s with
  | EmptyString => EmptyString
  | String c s' => String (ascii_lower_char c) (ascii_lower s')
  end.

(** ** Numbers *)

(** [str(n)] for an [int]. *)
Definition str_of_int (n : Z) : string :=
  NilZero.string_of_int (Z.to_int n).

(** The format specification [02d]: decimal, zero-filled on the left to a
    width of at least 2. *)
Definition fmt_02d (n : Z) : string :=
  let s := str_of_int n in
  if (String.length s <? 2)%nat then "0" ++ s else s.

(** Python [max(a, b)] and [min(a, b)]: the first argument wins a tie. *)
Definition Qlt_bool (a b : Q) : bool := negb (Qle_bool b a).

Definition py_max (a b : Q) : Q := if Qlt_bool a b then b else a.

Definition py_min (a b : Q) : Q := if Qlt_bool b a then b else a.

(** [a // b] and [a % b] on floats, [int(x)] (truncation towards zero). *)
Definition floordiv (a b : Q) : Q := inject_Z (Qfloor (a / b)%Q).

Definition pymod (a b : Q) : Q := (a - b * floordiv a b)%Q.

Definition int_of (x : Q) : Z := Z.quot (Qnum x) (Zpos (Qden x)).

(** ** Exceptions *)

Inductive exn : Type :=
| KeyError (key : string)
| IndexError
| ValueError (msg : string)
| OtherError (msg : string).

Inductive result (A : Type) : Type :=
| Ok (a : A)
| Raise (e : exn).

Arguments Ok {A} a.
Arguments Raise {A} e.

Definition bind {A B : Type} (r : result A) (k : A -> result B) : result B :=
  match r with
  | Ok a => k a
  | Raise e => Raise e
  end.

Notation "x <- e ;; k" := (bind e (fun x => k))
  (at level 61, e at next level, right associativity).

(** [try: body except Exception as e: handler]. *)
Definition try_except {A : Type} (body : result A) (handler : exn -> result A)
  : result A :=
  match body with
  | Ok a => Ok a
  | Raise e => handler e
  end.

(** [str(e)]. *)
Definition str_exn (e : exn) : string :=
  match e with
  | KeyError key => "'" ++ key ++ "'"
  | IndexError => "list index out of range"
  | ValueError msg => msg
  | OtherError msg => msg
  end.

Definition raises {A : Type} (r : result A) : Prop :=
  exists e : exn, r = Raise e.

(** ** Data model *)

(** One transcript entry, [{"start": ..., "text": ...}]. *)
Record Segment : Type := { start : Q; text : string }.

(** [{"entries": ..., "available_seconds": ...}]. *)
Record ContextWindow : Type :=
  { entries : list Segment; available_seconds : Q }.

(** The dictionary appended to [results] for each match ([match] is a
    keyword here, hence [match_]). *)
Record MatchRecord : Type :=
  { match_ : Segment;
    is_cross_segment : bool;
    next_segment : option Segment;
    context_before : ContextWindow;
    context_after : ContextWindow }.

(** The attributes of a [TranscriptDict] object. *)
Record TranscriptDict : Type :=
  { video_id : string;
    video_url : string;
    transcript_data : list Segment;
    has_transcript : bool }.

(** The fields of [urlparse(url)] that the code reads. *)
Record ParseResult : Type := { path : string; query : string }.

(** A [requests] response: [status_code] and [response.json()["title"]]. *)
Record Response : Type := { status_code : Z; json_title : result string }.

(** Everything outside the program: the URL library, the metadata service
    and the transcript API. *)
Record World : Type :=
  { urlparse : string -> result ParseResult;
    parse_qs : string -> list (string * list string);
    requests_get : string -> result Response;
    (* list_transcripts(id).find_transcript(["en"]).fetch() *)
    fetch_english : string -> result (list Segment);
    (* [t.language for t in list_transcripts(id)] *)
    list_languages : string -> result (list string) }.

(** ** Small list helpers *)

(** [enumerate(l)]. *)
Definition enumerate {A : Type} (l : list A) : list (nat * A) :=
  combine (seq 0 (List.length l)) l.

(** [l[-1]] when [l] is not empty. *)
Fixpoint last_entry {A : Type} (l : list A) : option A :=
  match l with
  | [] => None
  | [a] => Some a
  | _ :: l' => last_entry l'
  end.

(** [i in s] for the set of processed indices. *)
Definition mem (i : nat) (s : list nat) : bool := existsb (Nat.eqb i) s.

(** [d[k] = v] on a dictionary, kept as an association list in insertion
    order. *)
Fixpoint dict_set (k : Q) (v : string) (d : list (Q * string))
  : list (Q * string) :=
  match d with
  | [] => [(k, v)]
  | (k', v') :: d' =>
      if Qeq_bool k' k then (k', v) :: d' else (k', v') :: dict_set k v d'
  end.

(** [d.get(k)] on such a dictionary. *)
Fixpoint dict_lookup (k : Q) (d : list (Q * string)) : option string :=
  match d with
  | [] => None
  | (k', v) :: d' => if Qeq_bool k' k then Some v else dict_lookup k d'
  end.

(** [d[k]] on the result of [parse_qs]. *)
Fixpoint dict_get (k : string) (d : list (string * list string))
  : option (list string) :=
  match d with
  | [] => None
  | (k', v) :: d' => if String.eqb k' k then Some v else dict_get k d'
  end.

Definition nl : string := String (ascii_of_nat 10) EmptyString.

(** ** Timestamps *)

(** [format_timestamp(seconds)]. *)
Definition format_timestamp (seconds : Q) : string :=
  let hours := int_of (floordiv seconds 3600%Q) in
  let minutes := int_of (floordiv (pymod seconds 3600%Q) 60%Q) in
  let seconds := int_of (pymod seconds 60%Q) in
  if (hours >? 0)%Z then
    fmt_02d hours ++ ":" ++ fmt_02d minutes ++ ":" ++ fmt_02d seconds
  else
    fmt_02d minutes ++ ":" ++ fmt_02d seconds.

(** The two characters of a number below 100, as the specification describes
    a zero-padded two-digit field. *)
Definition digit (d : Z) : ascii := ascii_of_nat (48 + Z.to_nat d).

Definition two_digits (n : Z) : string :=
  String (digit (n / 10)) (String (digit (n mod 10)) EmptyString).

(** The line written for one entry by [fetch_transcript] and
    [get_full_transcript]. *)
Definition render_entry (entry : Segment) : string :=
  "[" ++ format_timestamp (start entry) ++ "] " ++ text entry ++ nl ++ nl.

(** [slice_transcript] of the specification: the entries with
    [start >= start_time] and ([end_time == 0] or [start <= end_time]). *)
Definition in_slice (start_time end_time : Z) (entry : Segment) : bool :=
  Qle_bool (inject_Z start_time) (start entry)
  && ((end_time =? 0)%Z || Qle_bool (start entry) (inject_Z end_time)).

Definition slice_transcript (T : list Segment) (start_time end_time : Z)
  : list Segment :=
  filter (in_slice start_time end_time) T.

(** Entries ordered by ascending start time (the data model's invariant). *)
Definition ascending (T : list Segment) : Prop :=
  StronglySorted (fun a b => (start a <= start b)%Q) T.

(** ** The search engine *)

Section Engine.

Variable lower : string -> string.

(** First loop of [get_query_usages_with_context]; [query] is already
    lowercased. *)
Definition primary_pass (T : list Segment) (query : string)
  : list (nat * Segment) :=
  filter (fun m => str_in query (lower (text (snd m)))) (enumerate T).

(** What the window [(i, i + 1)] of the sliding-window pass appends. *)
Definition window_hits (T : list Segment) (query : string) (i : nat)
  : list (nat * Segment) :=
  match nth_error T i, nth_error T (i + 1) with
  | Some cur, Some nxt =>
      let current_segment := lower (text cur) in
      let next_segment := lower (text nxt) in
      let combined_text := current_segment ++ " " ++ next_segment in
      if str_in query combined_text
      then [(i, cur); ((i + 1)%nat, nxt)]
      else []
  | _, _ => []
  end.

(** The sliding window over two consecutive segments,
    [for i in range(len(self.transcript_data) - 1)]. *)
Definition fallback_pass (T : list Segment) (query : string)
  : list (nat * Segment) :=
  flat_map (window_hits T query) (seq 0 (List.length T - 1)).

(** [matches] as it stands before the records are built. *)
Definition find_matches (T : list Segment) (query : string)
  : list (nat * Segment) :=
  match primary_pass T query with
  | [] => fallback_pass T query
  | matches => matches
  end.

(** The inner loop: the first entry of [matches] whose index is
    [match_index + 1]. *)
Definition find_adjacent (matches : list (nat * Segment)) (match_index : nat)
  : option Segment :=
  match find (fun m => (fst m =? match_index + 1)%nat) matches with
  | Some (_, other_entry) => Some other_entry
  | None => None
  end.

Definition collect_before (T : list Segment) (match_time : Q)
  (context_window : Z) : ContextWindow :=
  let before_time_limit := py_max 0%Q (match_time - inject_Z context_window)%Q in
  let available_before := (match_time - before_time_limit)%Q in
  {| entries :=
       filter (fun entry =>
                 Qle_bool before_time_limit (start entry)
                 && Qlt_bool (start entry) match_time) T;
     available_seconds := available_before |}.

(** The upper bound of the window after the match. *)
Definition after_limit (match_time : Q) (context_window : Z)
  (next : option Segment) : Q :=
  let after_time_limit := (match_time + inject_Z context_window)%Q in
  match next with
  | Some next_segment =>
      py_max after_time_limit
        (start next_segment + inject_Z context_window)%Q
  | None => after_time_limit
  end.

Definition last_timestamp (T : list Segment) : Q :=
  match last_entry T with
  | Some e => start e
  | None => 0%Q
  end.

(** The test that skips an entry of the window after the match. *)
Definition skipped (next : option Segment) (entry : Segment) : bool :=
  match next with
  | Some next_segment => Qeq_bool (start entry) (start next_segment)
  | None => false
  end.

Definition collect_after (T : list Segment) (match_time : Q)
  (context_window : Z) (next : option Segment) : ContextWindow :=
  let after_time_limit := after_limit match_time context_window next in
  let available_after :=
    (py_min after_time_limit (last_timestamp T) - match_time)%Q in
  {| entries :=
       filter (fun entry =>
                 Qlt_bool match_time (start entry)
                 && Qle_bool (start entry) after_time_limit
                 && negb (skipped next entry)) T;
     available_seconds := available_after |}.

(** The dictionary appended for the match [match_entry], [next] being what
    the inner loop found ([None] when it found nothing). *)
Definition build_record (T : list Segment) (context_window : Z)
  (match_entry : Segment) (next : option Segment) : MatchRecord :=
  let match_time := start match_entry in
  {| match_ := match_entry;
     is_cross_segment := match next with Some _ => true | None => false end;
     next_segment := next;
     context_before := collect_before T match_time context_window;
     context_after := collect_after T match_time context_window next |}.

(** The record appended for the match [m] of [matches]. *)
Definition record_at (T : list Segment) (context_window : Z)
  (matches : list (nat * Segment)) (m : nat * Segment) : MatchRecord :=
  build_record T context_window (snd m) (find_adjacent matches (fst m)).

(** One iteration of [for match_index, match_entry in matches], on the state
    [(processed_indices, results)]. *)
Definition record_step (T : list Segment) (context_window : Z)
  (matches : list (nat * Segment))
  (st : list nat * list MatchRecord) (m : nat * Segment)
  : list nat * list MatchRecord :=
  let '(processed_indices, results) := st in
  let '(match_index, match_entry) := m in
  if mem match_index processed_indices then st
  else
    let processed_indices := match_index :: processed_indices in
    let next := find_adjacent matches match_index in
    let processed_indices :=
      match next with
      | Some _ => (match_index + 1)%nat :: processed_indices
      | None => processed_indices
      end in
    (processed_indices,
     (results ++ [build_record T context_window match_entry next])%list).

Definition build_match_records (T : list Segment)
  (matches : list (nat * Segment)) (context_window : Z) : list MatchRecord :=
  snd (fold_left (record_step T context_window matches) matches ([], [])).

Definition get_query_usages_with_context (self : TranscriptDict)
  (query : string) (context_window : Z) : list MatchRecord :=
  if negb (has_transcript self) then []
  else
    let query := lower query in
    let matches := find_matches (transcript_data self) query in
    build_match_records (transcript_data self) matches context_window.

Definition get_query_usages (self : TranscriptDict) (query : string)
  : list (Q * string) :=
  if negb (has_transcript self) then []
  else
    let query := lower query in
    fold_left
      (fun results entry =>
         if str_in query (lower (text entry))
         then dict_set (start entry) (text entry) results
         else results)
      (transcript_data self) [].

(** The matches for which a record is appended, in the order of the loop:
    the entries of [todo] whose index is not yet processed. *)
Fixpoint emitted_from (matches todo : list (nat * Segment))
  (processed : list nat) : list (nat * Segment) :=
  match todo with
  | [] => []
  | (match_index, match_entry) :: rest =>
      if mem match_index processed then emitted_from matches rest processed
      else
        let processed := match_index :: processed in
        let processed :=
          match find_adjacent matches match_index with
          | Some _ => (match_index + 1)%nat :: processed
          | None => processed
          end in
        (match_index, match_entry) :: emitted_from matches rest processed
  end.

Definition emitted (matches : list (nat * Segment)) : list (nat * Segment) :=
  emitted_from matches matches [].

End Engine.

(** ** The server: helpers and tools *)

Section Server.

Variable lower : string -> string.
Variable W : World.

Definition parse_video_id (url : string) : result string :=
  parsed <- urlparse W url ;;
  if str_in "live" (path parsed) then
    Ok (last (split_on "/" (path parsed)) "")
  else if str_truthy (query parsed) then
    match dict_get "v" (parse_qs W (query parsed)) with
    | None => Raise (KeyError "v")
    | Some [] => Raise IndexError
    | Some (v :: _) => Ok v
    end
  else Ok url.

Definition get_video_title (video_url : string) : result string :=
  vid_id <- parse_video_id video_url ;;
  let vid_url := "https://www.youtube.com/watch?v=" ++ vid_id in
  let request_url :=
    "https://www.youtube.com/oembed" ++ "?format=json&url=" ++ vid_url in
  try_except
    (response <- requests_get W request_url ;;
     if (status_code response =? 200)%Z then json_title response
     else Ok ("Video " ++ vid_id))
    (fun _ => Ok ("Video " ++ vid_id)).

(** [TranscriptDict(video_url)]. *)
Definition TranscriptDict_init (video_url : string) : result TranscriptDict :=
  vid <- parse_video_id video_url ;;
  match fetch_english W vid with
  | Ok data =>
      Ok {| video_id := vid; video_url := video_url;
            transcript_data := data; has_transcript := true |}
  | Raise _ =>
      Ok {| video_id := vid; video_url := video_url;
            transcript_data := []; has_transcript := false |}
  end.

Definition fetch_transcript (self : TranscriptDict) (start_time end_time : Z)
  : result string :=
  if negb (has_transcript self) then
    title <- get_video_title (video_url self) ;;
    Ok ("No transcript available for video: " ++ title
        ++ " (ID: " ++ video_id self ++ ")")
  else
    Ok (fold_left
          (fun section entry =>
             if Qle_bool (inject_Z start_time) (start entry)
                && ((end_time =? 0)%Z
                    || Qle_bool (start entry) (inject_Z end_time))
             then section ++ render_entry entry
             else section)
          (transcript_data self) "").

Definition generate_link (url : string) (timestamp : Z) : result string :=
  video_id <- parse_video_id url ;;
  let timestamp_seconds := timestamp in
  Ok ("https://www.youtube.com/watch?v=" ++ video_id
      ++ "&t=" ++ str_of_int timestamp_seconds ++ "s").

Definition get_full_transcript (video_url : string) : result string :=
  try_except
    (video_id <- parse_video_id video_url ;;
     try_except
       (transcript_data <- fetch_english W video_id ;;
        Ok (fold_left
              (fun formatted_transcript entry =>
                 formatted_transcript ++ render_entry entry)
              transcript_data ""))
       (fun _ =>
          title <- get_video_title video_url ;;
          Ok ("No transcript available for video: " ++ title ++ ")")))
    (fun e =>
       title <- get_video_title video_url ;;
       Ok ("Error retrieving transcript: " ++ str_exn e ++ nl
           ++ "Video: " ++ title ++ ")")).

Definition get_video_information (video_url : string) : result string :=
  video_id <- parse_video_id video_url ;;
  title <- get_video_title video_url ;;
  try_except
    (available_languages <- list_languages W video_id ;;
     Ok ("Title: " ++ title ++ nl ++ "Video ID: " ++ video_id ++ nl
         ++ "Available transcript languages: "
         ++ join ", " available_languages))
    (fun _ =>
       Ok ("Title: " ++ title ++ nl
           ++ "No transcripts available for this video.")).

(** The lines of a context block. *)
Definition context_lines (context : list Segment) : string :=
  fold_left
    (fun formatted_results entry =>
       formatted_results ++ "[" ++ format_timestamp (start entry) ++ "] "
       ++ text entry ++ nl)
    context "".

(** The text appended to [formatted_results] for the [i]-th result. *)
Definition format_result (video_url : string) (i : nat) (r : MatchRecord)
  : result string :=
  let match_entry := match_ r in
  let divider :=
    if (0 <? i)%nat then nl ++ str_repeat "-" 50 ++ nl ++ nl else "" in
  let before :=
    "=== CONTEXT BEFORE (AVAILABLE: "
    ++ str_of_int (int_of (available_seconds (context_before r)))
    ++ "s) ===" ++ nl
    ++ match entries (context_before r) with
       | [] => "No context available before this match (beginning of video)"
               ++ nl
       | context => context_lines context
       end in
  let timestamp := format_timestamp (start match_entry) in
  formatted_link <- generate_link video_url (int_of (start match_entry)) ;;
  let matched :=
    nl ++ "=== QUERY MATCH ===" ++ nl
    ++ match is_cross_segment r, next_segment r with
       | true, Some next_segment =>
           let next_timestamp := format_timestamp (start next_segment) in
           "[" ++ timestamp ++ "] " ++ text match_entry ++ nl
           ++ "[" ++ next_timestamp ++ "] " ++ text next_segment ++ nl
           ++ "(Link: " ++ formatted_link ++ ")" ++ nl
       | _, _ =>
           "[" ++ timestamp ++ "] " ++ text match_entry
           ++ " (Link: " ++ formatted_link ++ ")" ++ nl
       end in
  let after :=
    nl ++ "=== CONTEXT AFTER (AVAILABLE: "
    ++ str_of_int (int_of (available_seconds (context_after r)))
    ++ "s) ===" ++ nl
    ++ match entries (context_after r) with
       | [] => "No context available after this match (end of video)" ++ nl
       | context => context_lines context
       end in
  Ok (divider ++ before ++ matched ++ after).

Definition search_transcript (video_url query : string) (context_window : Z)
  : result string :=
  title <- get_video_title video_url ;;
  try_except
    (transcript_dict <- TranscriptDict_init video_url ;;
     if negb (has_transcript transcript_dict) then
       Ok ("No transcript available for video: " ++ title)
     else
       let results :=
         get_query_usages_with_context lower transcript_dict (lower query)
           context_window in
       match results with
       | [] => Ok ("No matches found for '" ++ query ++ "' in video: " ++ title)
       | _ =>
           fold_left
             (fun acc ir =>
                formatted_results <- acc ;;
                block <- format_result video_url (fst ir) (snd ir) ;;
                Ok (formatted_results ++ block))
             (enumerate results)
             (Ok ("Found " ++ str_of_int (Z.of_nat (List.length results))
                  ++ " matches for '" ++ query ++ "' in video: " ++ title
                  ++ nl ++ nl))
       end)
    (fun e => Ok ("Error processing transcript: " ++ str_exn e)).

Definition get_transcript_section (video_url : string)
  (start_time end_time : Z) : result string :=
  try_except
    (transcript_dict <- TranscriptDict_init video_url ;;
     section_text <- fetch_transcript transcript_dict start_time end_time ;;
     if negb (has_transcript transcript_dict) then Ok section_text
     else
       formatted_link <- generate_link video_url start_time ;;
       Ok ("Transcript section from "
           ++ format_timestamp (inject_Z start_time) ++ " to "
           ++ format_timestamp
                (inject_Z (if (end_time =? 0)%Z then 999999 else end_time))
           ++ ":" ++ nl ++ nl ++ "Timestamped link: " ++ formatted_link
           ++ nl ++ nl ++ section_text ++ nl ++ nl
           ++ "When displaying this to the user, you must also include the timestamped links to the sections that contain the query so that the user can directly click on them in the client. Also, make sure to format the transcript text to be readable, adding punctuation and paragraphing where necessary, and remove unnecessary filler words."))
    (fun e =>
       title <- get_video_title video_url ;;
       Ok ("Error retrieving transcript section: " ++ str_exn e ++ nl
           ++ "Video: " ++ title)).

End Server.

(** ** Notions used in the statements *)

(** No occurrence of the separator. *)
Definition no_sep (sep : ascii) (s : string) : Prop :=
  forall pre post : string, s <> pre ++ String sep post.

(** The URL requested from the metadata service for the video [vid]. *)
Definition oembed_url (vid : string) : string :=
  "https://www.youtube.com/oembed" ++ "?format=json&url="
  ++ "https://www.youtube.com/watch?v=" ++ vid.

(** ** Worked inputs *)

Definition seg (t : Z) (s : string) : Segment :=
  {| start := inject_Z t; text := s |}.

(** An object whose transcript was fetched. *)
Definition available (T : list Segment) : TranscriptDict :=
  {| video_id := "dQw4w9WgXcQ"; video_url := "dQw4w9WgXcQ";
     transcript_data := T; has_transcript := true |}.

(** An object whose transcript could not be fetched. *)
Definition unavailable : TranscriptDict :=
  {| video_id := "dQw4w9WgXcQ"; video_url := "dQw4w9WgXcQ";
     transcript_data := []; has_transcript := false |}.

Definition peace_transcript : list Segment :=
  [seg 0 "hello"; seg 5 "world peace"; seg 10 "now"].

Definition split_phrase_transcript : list Segment :=
  [seg 0 "Hello"; seg 5 "world"; seg 10 "out there"].

Definition late_match_transcript : list Segment :=
  [seg 0 "intro"; seg 92 "getting closer"; seg 100 "the answer"].

Definition single_transcript : list Segment := [seg 10 "hello"].

(** Two entries share the start time 5. *)
Definition same_start_transcript : list Segment :=
  [seg 0 "hello"; seg 5 "world"; seg 5 "again"].

(** A watch URL whose query string has no [v] parameter. *)
Definition url_without_v : string := "https://www.youtube.com/watch?t=5".

(** A world without network: [urlparse] and [parse_qs] answer as the
    library does on [url_without_v] and on a bare video ID, every request
    fails. *)
Definition offline_world : World :=
  {| urlparse := fun url =>
       if String.eqb url url_without_v
       then Ok {| path := "/watch"; query := "t=5" |}
       else Ok {| path := url; query := "" |};
     parse_qs := fun qs =>
       if String.eqb qs "t=5" then [("t", ["5"])] else [];
     requests_get := fun _ => Raise (OtherError "connection refused");
     fetch_english := fun _ => Raise (OtherError "transcripts disabled");
     list_languages := fun _ => Raise (OtherError "transcripts disabled") |}.

(** A world in which the transcript API serves [peace_transcript] for every
    video and the metadata service answers 200 with a title. *)
Definition online_world : World :=
  {| urlparse := urlparse offline_world;
     parse_qs := parse_qs offline_world;
     requests_get := fun _ =>
       Ok {| status_code := 200; json_title := Ok "Peace talk" |};
     fetch_english := fun _ => Ok peace_transcript;
     list_languages := fun _ => Ok ["English"; "German"] |}.

(** A live-stream URL as [urlparse] splits it. *)
Definition live_world : World :=
  {| urlparse := fun _ => Ok {| path := "/live/USTG6sQlB6s"; query := "" |};
     parse_qs := fun _ => [];
     requests_get := requests_get offline_world;
     fetch_english := fetch_english offline_world;
     list_languages := list_languages offline_world |}.

(** * Properties *)

(** ** Strings and lists *)

Lemma prefix_app (q t : string) :
  prefix q t = true <-> exists post : string, t = q ++ post.
Proof.
  revert t; induction q as [|c q IH]; intros t.
  - split; [intros _; exists t; reflexivity | intros _; destruct t; reflexivity].
  - destruct t as [|d t]; simpl.
    + split; [discriminate | intros [post H]; discriminate].
    + destruct (ascii_dec c d) as [->|Hcd].
      * rewrite IH. split; intros [post H]; exists post.
        -- now rewrite H.
        -- now inversion H.
      * split; [discriminate | intros [post H]; simpl in H; congruence].
Qed.

Lemma str_in_unfold (q t : string) :
  str_in q t =
  if prefix q t then true
  else match t with
       | EmptyString => false
       | String _ t' => str_in q t'
       end.
Proof. destruct t; reflexivity. Qed.

Lemma str_in_spec (q t : string) : str_in q t = true <-> is_substring q t.
Proof.
  unfold is_substring. induction t as [|c t IH]; rewrite str_in_unfold.
  - destruct (prefix q "") eqn:Hp.
    + apply prefix_app in Hp as [post Hp].
      split; [intros _; exists "", post; exact Hp | reflexivity].
    + split; [discriminate|]. intros (pre & post & H).
      destruct pre; [|discriminate]. simpl in H.
      assert (prefix q "" = true) by (apply prefix_app; eauto). congruence.
  - destruct (prefix q (String c t)) eqn:Hp.
    + apply prefix_app in Hp as [post Hp].
      split; [intros _; exists "", post; exact Hp | reflexivity].
    + rewrite IH. split.
      * intros (pre & post & H). exists (String c pre), post. now rewrite H.
      * intros (pre & post & H). destruct pre as [|d pre].
        -- assert (prefix q (String c t) = true) by (apply prefix_app; eauto).
           congruence.
        -- inversion H. eauto.
Qed.

Lemma in_combine_seq {A : Type} (l : list A) (a i : nat) (x : A) :
  In (i, x) (combine (seq a (List.length l)) l)
  <-> (a <= i)%nat /\ nth_error l (i - a) = Some x.
Proof.
  revert a; induction l as [|y l IH]; intros a; simpl.
  - split; [tauto | intros [_ H]; destruct (i - a)%nat; discriminate].
  - rewrite IH. split.
    + intros [H | [Hle H]].
      * inversion H; subst. rewrite Nat.sub_diag. auto.
      * split; [lia|]. replace (i - a)%nat with (S (i - S a)) by lia. exact H.
    + intros [Hle H]. destruct (Nat.eq_dec a i) as [->|Hne].
      * rewrite Nat.sub_diag in H. simpl in H. left. congruence.
      * right. split; [lia|].
        replace (i - a)%nat with (S (i - S a)) in H by lia. exact H.
Qed.

Lemma in_enumerate {A : Type} (l : list A) (i : nat) (x : A) :
  In (i, x) (enumerate l) <-> nth_error l i = Some x.
Proof.
  unfold enumerate. rewrite in_combine_seq, Nat.sub_0_r.
  split; [tauto | intros H; split; [lia | exact H]].
Qed.

Lemma map_fst_enumerate {A : Type} (l : list A) :
  map fst (enumerate l) = seq 0 (List.length l).
Proof.
  unfold enumerate. generalize 0%nat.
  induction l as [|y l IH]; intros a; simpl; [reflexivity | now rewrite IH].
Qed.

Lemma sorted_seq (a n : nat) : StronglySorted lt (seq a n).
Proof.
  revert a; induction n as [|n IH]; intros a; simpl; constructor.
  - apply IH.
  - apply Forall_forall. intros x Hx. apply in_seq in Hx. lia.
Qed.

Lemma sorted_map_filter {A : Type} (R : nat -> nat -> Prop)
  (f : nat * A -> bool) (l : list (nat * A)) :
  StronglySorted R (map fst l) -> StronglySorted R (map fst (filter f l)).
Proof.
  induction l as [|x l IH]; simpl; intros H; [constructor|].
  inversion H as [|? ? Hs Hall]; subst.
  destruct (f x); simpl; [constructor|]; auto.
  rewrite Forall_forall in *. intros y Hy. apply Hall.
  apply in_map_iff in Hy as (z & <- & Hz). apply filter_In in Hz as [Hz _].
  now apply in_map.
Qed.

(** ** The two passes *)

Section EngineFacts.

Variable lower : string -> string.

Lemma primary_pass_spec (T : list Segment) (q : string) (i : nat)
  (seg : Segment) :
  In (i, seg) (primary_pass lower T q)
  <-> nth_error T i = Some seg /\ is_substring q (lower (text seg)).
Proof.
  unfold primary_pass. rewrite filter_In, in_enumerate. simpl.
  now rewrite str_in_spec.
Qed.

Lemma primary_pass_sorted (T : list Segment) (q : string) :
  StronglySorted lt (map fst (primary_pass lower T q)).
Proof.
  apply sorted_map_filter. rewrite map_fst_enumerate. apply sorted_seq.
Qed.

(** C1. If the lowercased query occurs in the lowercased text of the segment
    at index [i], the primary pass puts [(i, segment)] in its match list, and
    the list is in transcript order (indices strictly increasing). *)
Theorem primary_pass_complete (T : list Segment) (query : string) (i : nat)
  (seg : Segment)
  (Hseg : nth_error T i = Some seg)
  (Hsub : is_substring (lower query) (lower (text seg))) :
  In (i, seg) (primary_pass lower T (lower query))
  /\ StronglySorted lt (map fst (primary_pass lower T (lower query))).
Proof.
  split; [apply primary_pass_spec; auto | apply primary_pass_sorted].
Qed.

End EngineFacts.

Section MatchFacts.

Variable lower : string -> string.

Lemma fallback_pass_pair (T : list Segment) (q : string) (i : nat)
  (a b : Segment) :
  nth_error T i = Some a ->
  nth_error T (i + 1) = Some b ->
  is_substring q (lower (text a) ++ " " ++ lower (text b)) ->
  exists l1 l2 : list (nat * Segment),
    fallback_pass lower T q = (l1 ++ (i, a) :: ((i + 1)%nat, b) :: l2)%list.
Proof.
  intros Ha Hb Hsub. unfold fallback_pass.
  assert (Hlt : (i + 1 < List.length T)%nat)
    by (apply nth_error_Some; congruence).
  assert (Hin : In i (seq 0 (List.length T - 1))) by (apply in_seq; lia).
  apply in_split in Hin as (s1 & s2 & ->).
  rewrite flat_map_app. simpl.
  exists (flat_map (window_hits lower T q) s1),
    (flat_map (window_hits lower T q) s2).
  f_equal. unfold window_hits at 1. rewrite Ha, Hb.
  apply str_in_spec in Hsub. now rewrite Hsub.
Qed.

(** C2. The fallback pass contributes only when the primary pass found
    nothing: as soon as one segment contains the query, the match list is the
    primary one.  When the primary pass is empty, every adjacent pair whose
    lowercased texts, joined by one space, contain the query is in the match
    list as two consecutive entries [(i, T[i]); (i+1, T[i+1])]. *)
Theorem fallback_only_after_empty_primary (T : list Segment) (query : string) :
  let q := lower query in
  (primary_pass lower T q <> [] ->
   find_matches lower T q = primary_pass lower T q)
  /\ (forall (i : nat) (seg : Segment),
        nth_error T i = Some seg ->
        is_substring q (lower (text seg)) ->
        find_matches lower T q = primary_pass lower T q)
  /\ (primary_pass lower T q = [] ->
      find_matches lower T q = fallback_pass lower T q
      /\ forall (i : nat) (a b : Segment),
           nth_error T i = Some a ->
           nth_error T (i + 1) = Some b ->
           is_substring q (lower (text a) ++ " " ++ lower (text b)) ->
           exists l1 l2 : list (nat * Segment),
             find_matches lower T q
             = (l1 ++ (i, a) :: ((i + 1)%nat, b) :: l2)%list).
Proof.
  intros q. unfold find_matches. split; [|split].
  - destruct (primary_pass lower T q); congruence.
  - intros i seg Hi Hsub.
    assert (Hin : In (i, seg) (primary_pass lower T q))
      by (apply primary_pass_spec; auto).
    destruct (primary_pass lower T q); [contradiction | reflexivity].
  - intros ->. split; [reflexivity|].
    intros i a b Ha Hb Hsub. now apply fallback_pass_pair.
Qed.

End MatchFacts.

(** ** The match list *)

Lemma sorted_weaken {A : Type} (R S : A -> A -> Prop) (l : list A) :
  (forall x y, R x y -> S x y) -> StronglySorted R l -> StronglySorted S l.
Proof.
  intros HRS. induction 1 as [|x l Hs IH Hall]; constructor; auto.
  eapply Forall_impl; [|exact Hall]. auto.
Qed.

Lemma sorted_app {A : Type} (R : A -> A -> Prop) (l1 l2 : list A) :
  StronglySorted R l1 -> StronglySorted R l2 ->
  (forall x y, In x l1 -> In y l2 -> R x y) ->
  StronglySorted R (l1 ++ l2)%list.
Proof.
  intros H1 H2 H12. induction H1 as [|x l1 Hs IH Hall]; simpl; [exact H2|].
  constructor.
  - apply IH. intros a b Ha Hb. apply H12; [now right | exact Hb].
  - apply Forall_app. split; [exact Hall|].
    apply Forall_forall. intros y Hy. apply H12; [now left | exact Hy].
Qed.

Section MatchListFacts.

Variable lower : string -> string.

Lemma window_hits_in (T : list Segment) (q : string) (i j : nat)
  (e : Segment) :
  In (j, e) (window_hits lower T q i) ->
  nth_error T j = Some e /\ (i <= j <= i + 1)%nat.
Proof.
  unfold window_hits.
  destruct (nth_error T i) as [cur|] eqn:Hc; [|contradiction].
  destruct (nth_error T (i + 1)) as [nxt|] eqn:Hn; [|contradiction].
  destruct (str_in _ _); [|contradiction].
  intros [H | [H | []]]; inversion H; subst; split; auto; lia.
Qed.

Lemma window_hits_sorted (T : list Segment) (q : string) (i : nat) :
  StronglySorted le (map fst (window_hits lower T q i)).
Proof.
  unfold window_hits.
  destruct (nth_error T i); [|constructor].
  destruct (nth_error T (i + 1)); [|constructor].
  destruct (str_in _ _); [|constructor]. simpl.
  repeat constructor. lia.
Qed.

Lemma windows_sorted (T : list Segment) (q : string) (a n : nat) :
  StronglySorted le (map fst (flat_map (window_hits lower T q) (seq a n)))
  /\ forall j, In j (map fst (flat_map (window_hits lower T q) (seq a n))) ->
               (a <= j)%nat.
Proof.
  revert a; induction n as [|n IH]; intros a; simpl.
  - split; [constructor | contradiction].
  - destruct (IH (S a)) as [Hs Hge]. rewrite map_app. split.
    + apply sorted_app; [apply window_hits_sorted | exact Hs |].
      intros x y Hx Hy. apply Hge in Hy.
      apply in_map_iff in Hx as ([j e] & <- & Hx).
      apply window_hits_in in Hx. simpl. lia.
    + intros j Hj. apply in_app_or in Hj as [Hj | Hj].
      * apply in_map_iff in Hj as ([k e] & <- & Hj).
        apply window_hits_in in Hj. simpl. lia.
      * apply Hge in Hj. lia.
Qed.

(** Every entry of the match list is a segment paired with its own index. *)
Lemma find_matches_nth (T : list Segment) (q : string) (j : nat)
  (e : Segment) :
  In (j, e) (find_matches lower T q) -> nth_error T j = Some e.
Proof.
  unfold find_matches. destruct (primary_pass lower T q) eqn:Hp.
  - unfold fallback_pass. intros H.
    apply in_flat_map in H as (i & _ & H). now apply window_hits_in in H.
  - rewrite <- Hp. intros H. now apply primary_pass_spec in H.
Qed.

(** The indices of the match list never decrease. *)
Lemma find_matches_sorted (T : list Segment) (q : string) :
  StronglySorted le (map fst (find_matches lower T q)).
Proof.
  unfold find_matches. destruct (primary_pass lower T q) eqn:Hp.
  - apply windows_sorted.
  - rewrite <- Hp. eapply sorted_weaken; [|apply primary_pass_sorted].
    intros; lia.
Qed.

End MatchListFacts.

(** ** Building the records *)

Lemma mem_In (i : nat) (s : list nat) : mem i s = true <-> In i s.
Proof.
  unfold mem. rewrite existsb_exists. split.
  - intros (x & Hx & Heq). apply Nat.eqb_eq in Heq. now subst.
  - intros H. exists i. split; [exact H | apply Nat.eqb_refl].
Qed.

Lemma find_adjacent_some (matches : list (nat * Segment)) (i : nat)
  (e : Segment) :
  find_adjacent matches i = Some e -> In ((i + 1)%nat, e) matches.
Proof.
  unfold find_adjacent.
  destruct (find _ matches) as [[j e']|] eqn:Hf; [|discriminate].
  intros H; inversion H; subst. apply find_some in Hf as [Hin Heq].
  simpl in Heq. apply Nat.eqb_eq in Heq. now subst.
Qed.

Lemma find_adjacent_none (matches : list (nat * Segment)) (i : nat) :
  find_adjacent matches i = None <-> ~ In (i + 1)%nat (map fst matches).
Proof.
  unfold find_adjacent. split.
  - destruct (find _ matches) as [[j e']|] eqn:Hf; [discriminate|].
    intros _ Hin. apply in_map_iff in Hin as ([j e] & Hj & Hin).
    simpl in Hj; subst j.
    pose proof (find_none _ _ Hf _ Hin) as Hn. simpl in Hn.
    rewrite Nat.eqb_refl in Hn. discriminate.
  - intros Hnot. destruct (find _ matches) as [[j e']|] eqn:Hf; [|reflexivity].
    apply find_some in Hf as [Hin Heq]. simpl in Heq.
    apply Nat.eqb_eq in Heq. subst j. exfalso. apply Hnot.
    apply in_map_iff. exists ((i + 1)%nat, e'). auto.
Qed.

Lemma record_loop (T : list Segment) (w : Z)
  (matches todo : list (nat * Segment)) (processed : list nat)
  (results : list MatchRecord) :
  snd (fold_left (record_step T w matches) todo (processed, results))
  = (results
     ++ map (record_at T w matches) (emitted_from matches todo processed))%list.
Proof.
  revert processed results.
  induction todo as [|[i e] todo IH]; intros processed results; simpl.
  - now rewrite app_nil_r.
  - destruct (mem i processed); [apply IH|].
    rewrite IH, <- app_assoc. reflexivity.
Qed.

Lemma build_match_records_emitted (T : list Segment) (w : Z)
  (matches : list (nat * Segment)) :
  build_match_records T matches w
  = map (record_at T w matches) (emitted matches).
Proof. unfold build_match_records, emitted. now rewrite record_loop. Qed.

Lemma emitted_from_in (matches todo : list (nat * Segment))
  (processed : list nat) (m : nat * Segment) :
  In m (emitted_from matches todo processed) ->
  In m todo /\ ~ In (fst m) processed.
Proof.
  revert processed.
  induction todo as [|[i e] todo IH]; intros processed; simpl; [tauto|].
  destruct (mem i processed) eqn:Hmem.
  - intros H. apply IH in H. tauto.
  - assert (Hnot : ~ In i processed)
      by (rewrite <- mem_In; congruence).
    intros [<- | H]; [auto|]. apply IH in H as [Hin Hn]. split; [auto|].
    intros Hp. apply Hn.
    destruct (find_adjacent matches i); simpl; auto.
Qed.

Lemma emitted_from_sorted (matches todo : list (nat * Segment))
  (processed : list nat) :
  StronglySorted le (map fst todo) ->
  StronglySorted lt (map fst (emitted_from matches todo processed)).
Proof.
  revert processed.
  induction todo as [|[i e] todo IH]; intros processed Hs; simpl;
    [constructor|].
  inversion Hs as [|? ? Hs' Hall]; subst.
  destruct (mem i processed); [now apply IH|].
  simpl. constructor; [now apply IH|].
  apply Forall_forall. intros j Hj.
  apply in_map_iff in Hj as ([j' e'] & <- & Hj). simpl.
  apply emitted_from_in in Hj as [Hin Hn]. simpl in Hn.
  rewrite Forall_forall in Hall.
  assert (i <= j')%nat by (apply Hall, in_map_iff; exists (j', e'); auto).
  assert (i <> j').
  { intros ->. apply Hn. destruct (find_adjacent matches j'); simpl; auto. }
  lia.
Qed.

(** Once [i] has a record and [i + 1] is in the match list, no record is
    appended for [i + 1]. *)
Lemma emitted_from_consumed (matches todo : list (nat * Segment))
  (processed : list nat) (i : nat) (e : Segment) :
  StronglySorted le (map fst todo) ->
  In (i, e) (emitted_from matches todo processed) ->
  find_adjacent matches i <> None ->
  ~ In (i + 1)%nat (map fst (emitted_from matches todo processed)).
Proof.
  revert processed.
  induction todo as [|[k x] todo IH]; intros processed Hs; simpl; [tauto|].
  inversion Hs as [|? ? Hs' Hall]; subst.
  destruct (mem k processed); [now apply IH|].
  set (processed' := match find_adjacent matches k with
                     | Some _ => (k + 1)%nat :: k :: processed
                     | None => k :: processed
                     end).
  intros [Heq | Hin] Hadj; simpl.
  - inversion Heq; subst k x. intros [Hk | Hk]; [lia|].
    apply in_map_iff in Hk as ([j y] & Hj & Hk). simpl in Hj; subst j.
    apply emitted_from_in in Hk as [_ Hn]. apply Hn. simpl.
    subst processed'. destruct (find_adjacent matches i); [now left | congruence].
  - intros [Hk | Hk].
    + pose proof (emitted_from_in _ _ _ _ Hin) as [Hin' Hn]. simpl in Hn.
      rewrite Forall_forall in Hall.
      assert (k <= i)%nat by (apply Hall, in_map_iff; exists (i, e); auto).
      lia.
    + now apply (IH processed').
Qed.


(** ** Comparisons on rationals *)

Lemma Qlt_bool_iff (a b : Q) : Qlt_bool a b = true <-> (a < b)%Q.
Proof.
  unfold Qlt_bool. rewrite negb_true_iff. split.
  - intros H. apply Qnot_le_lt. intros Hle.
    apply Qle_bool_iff in Hle. congruence.
  - intros H. destruct (Qle_bool b a) eqn:Hle; [|reflexivity].
    apply Qle_bool_iff in Hle. exfalso. revert Hle. now apply Qlt_not_le.
Qed.

Lemma py_max_spec (a b : Q) :
  (py_max a b = a /\ (b <= a)%Q) \/ (py_max a b = b /\ (a < b)%Q).
Proof.
  unfold py_max. destruct (Qlt_bool a b) eqn:H.
  - right. split; [reflexivity | now apply Qlt_bool_iff].
  - left. split; [reflexivity|]. apply Qnot_lt_le. intros Hlt.
    apply Qlt_bool_iff in Hlt. congruence.
Qed.

Lemma py_min_spec (a b : Q) :
  (py_min a b = a /\ (a <= b)%Q) \/ (py_min a b = b /\ (b < a)%Q).
Proof.
  unfold py_min. destruct (Qlt_bool b a) eqn:H.
  - right. split; [reflexivity | now apply Qlt_bool_iff].
  - left. split; [reflexivity|]. apply Qnot_lt_le. intros Hlt.
    apply Qlt_bool_iff in Hlt. congruence.
Qed.

Section RecordFacts.

Variable lower : string -> string.

(** Every record of the result was built for an entry of the match list. *)
Lemma record_in (td : TranscriptDict) (query : string) (w : Z)
  (r : MatchRecord) :
  In r (get_query_usages_with_context lower td query w) ->
  exists (i : nat) (e : Segment),
    In (i, e) (find_matches lower (transcript_data td) (lower query))
    /\ nth_error (transcript_data td) i = Some e
    /\ r = build_record (transcript_data td) w e
             (find_adjacent
                (find_matches lower (transcript_data td) (lower query)) i).
Proof.
  unfold get_query_usages_with_context.
  destruct (has_transcript td); simpl; [|contradiction].
  rewrite build_match_records_emitted. intros H.
  apply in_map_iff in H as ([i e] & <- & H).
  apply emitted_from_in in H as [H _].
  exists i, e. split; [exact H|]. split; [|reflexivity].
  now apply find_matches_nth in H.
Qed.

(** C7. The records are built, in this order, for the entries [em] of the
    match list that the loop does not skip; their indices increase strictly.
    The record for index [i] is flagged cross-segment exactly when [i + 1] is
    in the match list; then its [next_segment] is the segment at [i + 1] and
    no record is built for [i + 1]. *)
Theorem cross_segment_records (vid url : string) (T : list Segment)
  (query : string) (w : Z) :
  let td := {| video_id := vid; video_url := url;
               transcript_data := T; has_transcript := true |} in
  let matches := find_matches lower T (lower query) in
  let em := emitted matches in
  get_query_usages_with_context lower td query w
  = map (record_at T w matches) em
  /\ StronglySorted lt (map fst em)
  /\ forall (i : nat) (e : Segment),
       In (i, e) em ->
       let r := record_at T w matches (i, e) in
       nth_error T i = Some e
       /\ match_ r = e
       /\ (is_cross_segment r = true <-> In (i + 1)%nat (map fst matches))
       /\ (In (i + 1)%nat (map fst matches) ->
           next_segment r = nth_error T (i + 1)
           /\ ~ In (i + 1)%nat (map fst em))
       /\ (~ In (i + 1)%nat (map fst matches) -> next_segment r = None).
Proof.
  intros td matches em.
  assert (Hsorted : StronglySorted le (map fst matches))
    by apply find_matches_sorted.
  split; [|split].
  - unfold get_query_usages_with_context. simpl.
    apply build_match_records_emitted.
  - now apply emitted_from_sorted.
  - intros i e Hin r.
    pose proof (emitted_from_in _ _ _ _ Hin) as [Hm _].
    pose proof (find_adjacent_none matches i) as Hnone.
    unfold r, record_at, build_record; simpl.
    split; [now apply find_matches_nth in Hm|].
    split; [reflexivity|].
    destruct (find_adjacent matches i) as [nxt|] eqn:Hadj.
    + assert (Hi : In (i + 1)%nat (map fst matches)).
      { apply find_adjacent_some in Hadj. apply in_map_iff.
        exists ((i + 1)%nat, nxt). auto. }
      split; [tauto|]. split; [|tauto]. intros _. split.
      * apply find_adjacent_some, find_matches_nth in Hadj. now rewrite Hadj.
      * apply (emitted_from_consumed matches matches [] i e); auto.
        congruence.
    + assert (Hi : ~ In (i + 1)%nat (map fst matches)) by now apply Hnone.
      split; [split; [discriminate | tauto]|]. split; [tauto | reflexivity].
Qed.

End RecordFacts.

(** ** Context windows *)

Lemma last_timestamp_max (T : list Segment) (e : Segment) :
  ascending T -> In e T -> (start e <= last_timestamp T)%Q.
Proof.
  unfold ascending, last_timestamp. intros Hasc. revert e.
  induction Hasc as [|x l Hs IH Hall]; intros e Hin; [contradiction|].
  destruct l as [|y l].
  - destruct Hin as [-> | []]. simpl. apply Qle_refl.
  - change (last_entry (x :: y :: l)) with (last_entry (y :: l)).
    destruct Hin as [-> | Hin]; [|now apply IH].
    apply Qle_trans with (start y).
    + rewrite Forall_forall in Hall. apply Hall. now left.
    + apply IH. now left.
Qed.

Lemma after_limit_ge (t : Q) (w : Z) (next : option Segment) :
  (t + inject_Z w <= after_limit t w next)%Q.
Proof.
  unfold after_limit. destruct next as [n|]; [|apply Qle_refl].
  destruct (py_max_spec (t + inject_Z w) (start n + inject_Z w))
    as [[-> _] | [-> H]]; [apply Qle_refl | now apply Qlt_le_weak].
Qed.

Section WindowFacts.

Variable lower : string -> string.

(** C4. With a non-negative context window, on a transcript whose start
    times are non-negative, for every record: the lower bound of the window
    before the match is [max(0, match_time - context_window)]; the entries
    are the transcript's segments with start in [[lower_bound, match_time)];
    [available_seconds] is [match_time - lower_bound], it lies between 0 and
    [context_window] and equals [context_window] once the match time exceeds
    it. *)
Theorem context_before_window (td : TranscriptDict) (query : string) (w : Z)
  (r : MatchRecord)
  (Hw : (0 <= w)%Z)
  (Hnn : forall e : Segment, In e (transcript_data td) -> (0 <= start e)%Q)
  (Hr : In r (get_query_usages_with_context lower td query w)) :
  let T := transcript_data td in
  let t := start (match_ r) in
  let lb := py_max 0%Q (t - inject_Z w)%Q in
  let avail := available_seconds (context_before r) in
  ((lb = 0%Q /\ (t - inject_Z w <= 0)%Q)
   \/ (lb = (t - inject_Z w)%Q /\ (0 < t - inject_Z w)%Q))
  /\ entries (context_before r)
     = filter (fun e => Qle_bool lb (start e) && Qlt_bool (start e) t) T
  /\ (forall e : Segment,
        In e (entries (context_before r))
        <-> In e T /\ (lb <= start e)%Q /\ (start e < t)%Q)
  /\ avail = (t - lb)%Q
  /\ (0 <= avail)%Q
  /\ (avail <= inject_Z w)%Q
  /\ ((inject_Z w < t)%Q -> (avail == inject_Z w)%Q).
Proof.
  apply record_in in Hr as (i & e & _ & Hnth & ->). simpl.
  assert (Ht : (0 <= start e)%Q) by (eapply Hnn, nth_error_In; eauto).
  rewrite Zle_Qle in Hw. change (inject_Z 0) with 0%Q in Hw.
  set (t := start e) in *. set (lb := py_max 0%Q (t - inject_Z w)%Q).
  assert (Hlb : (lb = 0%Q /\ (t - inject_Z w <= 0)%Q)
                \/ (lb = (t - inject_Z w)%Q /\ (0 < t - inject_Z w)%Q))
    by apply py_max_spec.
  split; [exact Hlb|]. split; [reflexivity|]. split.
  { intros x. rewrite filter_In, andb_true_iff, Qle_bool_iff, Qlt_bool_iff.
    tauto. }
  split; [reflexivity|].
  split; [|split].
  - destruct Hlb as [[-> H] | [-> H]]; lra.
  - destruct Hlb as [[-> H] | [-> H]]; lra.
  - intros Hlt. destruct Hlb as [[-> H] | [-> H]]; lra.
Qed.

(** In the embedding's exact arithmetic, for every record: the upper bound
    of the window after the match is [match_time + context_window], raised to
    [next_segment.start + context_window] for a cross-segment match; the
    entries are the segments with start in [(match_time, upper_bound]] whose
    start differs from that of [next_segment]; [available_seconds] is
    [min(upper_bound, last_timestamp) - match_time]. *)
Lemma context_after_window (td : TranscriptDict) (query : string) (w : Z)
  (r : MatchRecord)
  (Hr : In r (get_query_usages_with_context lower td query w)) :
  let T := transcript_data td in
  let t := start (match_ r) in
  let ub := after_limit t w (next_segment r) in
  (is_cross_segment r = false ->
   next_segment r = None /\ ub = (t + inject_Z w)%Q)
  /\ (forall n : Segment,
        next_segment r = Some n ->
        is_cross_segment r = true
        /\ ub = py_max (t + inject_Z w)%Q (start n + inject_Z w)%Q)
  /\ (forall e : Segment,
        In e (entries (context_after r))
        <-> In e T /\ (t < start e)%Q /\ (start e <= ub)%Q
            /\ forall n : Segment,
                 next_segment r = Some n -> ~ (start e == start n)%Q)
  /\ available_seconds (context_after r)
     = (py_min ub (last_timestamp T) - t)%Q.
Proof.
  apply record_in in Hr as (i & e & _ & _ & ->). simpl.
  split; [|split; [|split]].
  - destruct (find_adjacent _ i); [discriminate | auto].
  - intros n ->. auto.
  - intros x.
    rewrite filter_In, !andb_true_iff, Qlt_bool_iff, Qle_bool_iff,
      negb_true_iff.
    destruct (find_adjacent _ i) as [n|]; simpl.
    + split.
      * intros (Hx & (H1 & H2) & H3). repeat split; auto.
        intros n' Hn' Heq. inversion Hn'; subst n'.
        apply Qeq_bool_iff in Heq. congruence.
      * intros (Hx & H1 & H2 & H3). repeat split; auto.
        destruct (Qeq_bool (start x) (start n)) eqn:Heq; [|reflexivity].
        exfalso. apply (H3 n eq_refl). now apply Qeq_bool_iff.
    + split.
      * intros (Hx & (H1 & H2) & _). repeat split; auto. discriminate.
      * intros (Hx & H1 & H2 & _). auto.
  - reflexivity.
Qed.

(** C10. On a transcript ordered by start time, with a non-negative
    context window, the seconds available after a match are never
    negative. *)
Theorem context_after_nonnegative (td : TranscriptDict) (query : string)
  (w : Z) (r : MatchRecord)
  (Hasc : ascending (transcript_data td))
  (Hw : (0 <= w)%Z)
  (Hr : In r (get_query_usages_with_context lower td query w)) :
  (0 <= available_seconds (context_after r))%Q.
Proof.
  apply record_in in Hr as (i & e & _ & Hnth & ->). simpl.
  apply nth_error_In in Hnth.
  pose proof (last_timestamp_max _ _ Hasc Hnth) as Hlast.
  pose proof (after_limit_ge (start e) w
                (find_adjacent
                   (find_matches lower (transcript_data td) (lower query)) i))
    as Hlim.
  rewrite Zle_Qle in Hw. change (inject_Z 0) with 0%Q in Hw.
  match goal with
  | |- context [py_min ?a ?b] =>
      destruct (py_min_spec a b) as [[-> _] | [-> _]]
  end; lra.
Qed.

End WindowFacts.

(** C4 on a match at 100 s with a window of 15 s. *)
Lemma context_before_window_witness :
  let r := build_record late_match_transcript 15 (seg 100 "the answer") None in
  (0 <= 15)%Z
  /\ (forall e : Segment, In e late_match_transcript -> (0 <= start e)%Q)
  /\ In r (get_query_usages_with_context ascii_lower
             (available late_match_transcript) "Answer" 15)
  /\ (available_seconds (context_before r) == inject_Z 15)%Q
  /\ entries (context_before r) = [seg 92 "getting closer"].
Proof.
  intros r.
  assert (Hnn : forall e : Segment,
             In e late_match_transcript -> (0 <= start e)%Q).
  { intros e [<- | [<- | [<- | []]]]; vm_compute; discriminate. }
  assert (Hr : In r (get_query_usages_with_context ascii_lower
                       (available late_match_transcript) "Answer" 15))
    by (vm_compute; left; reflexivity).
  split; [lia|]. split; [exact Hnn|]. split; [exact Hr|].
  destruct (context_before_window ascii_lower
              (available late_match_transcript) "Answer" 15 r
              ltac:(lia) Hnn Hr)
    as (_ & He & _ & _ & _ & _ & Heq).
  split; [apply Heq; reflexivity | rewrite He; reflexivity].
Defined.

(** C10 on a match at 100 s, the last entry of an ordered transcript. *)
Lemma context_after_nonnegative_witness :
  let r := build_record late_match_transcript 15 (seg 100 "the answer") None in
  ascending late_match_transcript
  /\ (0 <= 15)%Z
  /\ (0 <= available_seconds (context_after r))%Q.
Proof.
  intros r.
  assert (Hasc : ascending late_match_transcript).
  { unfold ascending, late_match_transcript.
    repeat constructor; unfold Qle; simpl; lia. }
  split; [exact Hasc|]. split; [lia|].
  apply (context_after_nonnegative ascii_lower
           (available late_match_transcript) "Answer" 15 r Hasc);
    [lia | vm_compute; left; reflexivity].
Defined.

(** C5 on [same_start_transcript]. The query is found across segments 0 and
    1; the entry "again" also starts at 5 s, is not the paired segment and
    has its start inside the window after the match, yet the window is empty:
    the loop skips every entry whose start equals that of [next_segment]. *)
Theorem same_start_entry_dropped :
  let T := same_start_transcript in
  let results :=
    get_query_usages_with_context ascii_lower (available T) "hello world" 15 in
  exists r : MatchRecord,
    results = [r]
    /\ match_ r = seg 0 "hello"
    /\ is_cross_segment r = true
    /\ next_segment r = Some (seg 5 "world")
    /\ entries (context_after r) = []
    /\ In (seg 5 "again") T
    /\ seg 5 "again" <> seg 5 "world"
    /\ (start (match_ r) < start (seg 5 "again"))%Q
    /\ (start (seg 5 "again")
        <= after_limit (start (match_ r)) 15 (next_segment r))%Q.
Proof.
  intros T results.
  exists (build_record T 15 (seg 0 "hello") (Some (seg 5 "world"))).
  split; [vm_compute; reflexivity|].
  repeat split; try reflexivity.
  - right; right; left; reflexivity.
  - discriminate.
  - vm_compute. discriminate.
Qed.

(** ** Unavailable transcripts and failures *)

Section ServerFacts.

Variable lower : string -> string.
Variable W : World.

Lemma get_video_title_ok (url vid : string) :
  parse_video_id W url = Ok vid ->
  exists title : string, get_video_title W url = Ok title.
Proof.
  intros Hp. unfold get_video_title. rewrite Hp. simpl.
  destruct (requests_get W _) as [response|]; simpl; eauto.
  destruct (status_code response =? 200)%Z; simpl; eauto.
  destruct (json_title response); simpl; eauto.
Qed.

Lemma get_video_title_raises (url : string) (e : exn) :
  parse_video_id W url = Raise e -> get_video_title W url = Raise e.
Proof. intros Hp. unfold get_video_title. now rewrite Hp. Qed.

Lemma TranscriptDict_init_url (url : string) (td : TranscriptDict) :
  TranscriptDict_init W url = Ok td ->
  video_url td = url /\ parse_video_id W url = Ok (video_id td).
Proof.
  unfold TranscriptDict_init.
  destruct (parse_video_id W url) as [vid|]; simpl; [|discriminate].
  destruct (fetch_english W vid); intros H; inversion H; auto.
Qed.

(** C3, as the code has it. On an object marked unavailable both searches
    return an empty collection.  [fetch_transcript] returns no empty slice:
    it returns the message naming the video, and returns it without raising
    on every object the constructor built. *)
Theorem unavailable_results (td : TranscriptDict) (query : string)
  (w start_time end_time : Z)
  (Hun : has_transcript td = false) :
  get_query_usages lower td query = []
  /\ get_query_usages_with_context lower td query w = []
  /\ fetch_transcript W td start_time end_time
     = (title <- get_video_title W (video_url td) ;;
        Ok ("No transcript available for video: " ++ title
            ++ " (ID: " ++ video_id td ++ ")"))
  /\ (forall url : string,
        TranscriptDict_init W url = Ok td ->
        exists title : string,
          fetch_transcript W td start_time end_time
          = Ok ("No transcript available for video: " ++ title
                ++ " (ID: " ++ video_id td ++ ")")).
Proof.
  unfold get_query_usages, get_query_usages_with_context, fetch_transcript.
  rewrite Hun. simpl. repeat split.
  intros url Hinit. apply TranscriptDict_init_url in Hinit as [-> Hp].
  apply get_video_title_ok in Hp as [title ->]. simpl. eauto.
Qed.

(** Whatever [parse_video_id] raises on the URL leaves each tool. *)
Lemma tools_reraise (url query : string) (w start_time end_time : Z)
  (e : exn) :
  parse_video_id W url = Raise e ->
  get_full_transcript W url = Raise e
  /\ get_video_information W url = Raise e
  /\ search_transcript lower W url query w = Raise e
  /\ get_transcript_section W url start_time end_time = Raise e.
Proof.
  intros Hp. pose proof (get_video_title_raises _ _ Hp) as Ht.
  unfold get_full_transcript, get_video_information, search_transcript,
    get_transcript_section, TranscriptDict_init.
  rewrite Hp, Ht. simpl. auto.
Qed.

End ServerFacts.

(** C3 on the unavailable object: both searches are empty. *)
Lemma unavailable_results_witness :
  has_transcript unavailable = false
  /\ get_query_usages ascii_lower unavailable "peace" = []
  /\ get_query_usages_with_context ascii_lower unavailable "peace" 15 = [].
Proof.
  split; [reflexivity|].
  destruct (unavailable_results ascii_lower offline_world unavailable
              "peace" 15 0 0 eq_refl) as (H1 & H2 & _).
  split; [exact H1 | exact H2].
Defined.

(** C3 does not hold for [fetch_transcript]: on an unavailable transcript
    it returns a message, not the empty text of an empty slice. *)
Lemma fetch_transcript_unavailable_message :
  TranscriptDict_init offline_world "dQw4w9WgXcQ" = Ok unavailable
  /\ fetch_transcript offline_world unavailable 0 0
     = Ok "No transcript available for video: Video dQw4w9WgXcQ (ID: dQw4w9WgXcQ)"
  /\ fetch_transcript offline_world unavailable 0 0 <> Ok "".
Proof.
  split; [reflexivity|]. split; [reflexivity | discriminate].
Qed.

(** C8 at [url_without_v]: [parse_qs(parsed.query)["v"]] raises [KeyError],
    and the error leaves each of the four tools. *)
Theorem resolution_error_leaves_tools :
  parse_video_id offline_world url_without_v = Raise (KeyError "v")
  /\ get_full_transcript offline_world url_without_v = Raise (KeyError "v")
  /\ get_video_information offline_world url_without_v = Raise (KeyError "v")
  /\ search_transcript ascii_lower offline_world url_without_v "peace" 15
     = Raise (KeyError "v")
  /\ get_transcript_section offline_world url_without_v 0 0
     = Raise (KeyError "v").
Proof.
  assert (Hp : parse_video_id offline_world url_without_v
               = Raise (KeyError "v")) by reflexivity.
  split; [exact Hp|].
  exact (tools_reraise ascii_lower offline_world url_without_v "peace" 15 0 0
           (KeyError "v") Hp).
Qed.

(** ** Slicing *)

Lemma str_app_nil_r (s : string) : s ++ "" = s.
Proof. induction s as [|c s IH]; simpl; [reflexivity | now rewrite IH]. Qed.

Lemma str_app_assoc (s1 s2 s3 : string) : (s1 ++ s2) ++ s3 = s1 ++ s2 ++ s3.
Proof. induction s1 as [|c s1 IH]; simpl; [reflexivity | now rewrite IH]. Qed.

Lemma join_empty_cons (x : string) (l : list string) :
  join "" (x :: l) = x ++ join "" l.
Proof. destruct l; simpl; [now rewrite str_app_nil_r | reflexivity]. Qed.

Lemma filter_filter {A : Type} (f g : A -> bool) (l : list A) :
  filter f (filter g l) = filter (fun x => g x && f x) l.
Proof.
  induction l as [|x l IH]; simpl; [reflexivity|].
  destruct (g x); simpl; [destruct (f x)|]; now rewrite IH.
Qed.

Lemma ascending_filter (f : Segment -> bool) (T : list Segment) :
  ascending T -> ascending (filter f T).
Proof.
  unfold ascending. induction 1 as [|x l Hs IH Hall]; simpl; [constructor|].
  destruct (f x); [constructor|]; auto.
  rewrite Forall_forall in *. intros y Hy. apply Hall.
  now apply filter_In in Hy.
Qed.

(** A test that holds for every entry starting no later than one for which
    it holds cuts an ordered transcript into a prefix and a suffix. *)
Lemma ascending_split (p : Segment -> bool) (T : list Segment) :
  (forall x y : Segment,
     (start x <= start y)%Q -> p y = true -> p x = true) ->
  ascending T ->
  T = (filter p T ++ filter (fun x => negb (p x)) T)%list.
Proof.
  intros Hdown. unfold ascending.
  induction 1 as [|x l Hs IH Hall]; simpl; [reflexivity|].
  destruct (p x) eqn:Hpx; simpl.
  - now rewrite <- IH.
  - assert (Hnone : filter p l = []).
    { rewrite Forall_forall in Hall.
      clear IH. induction l as [|y l IHl]; simpl; [reflexivity|].
      inversion Hs; subst.
      destruct (p y) eqn:Hpy.
      - rewrite (Hdown x y) in Hpx; [discriminate | | exact Hpy].
        apply Hall. now left.
      - apply IHl; auto. intros z Hz. apply Hall. now right. }
    rewrite Hnone in *. simpl in *. now rewrite <- IH.
Qed.

Section SliceFacts.

Variable W : World.

Lemma fetch_loop (start_time end_time : Z) (T : list Segment)
  (section : string) :
  fold_left
    (fun section entry =>
       if Qle_bool (inject_Z start_time) (start entry)
          && ((end_time =? 0)%Z || Qle_bool (start entry) (inject_Z end_time))
       then section ++ render_entry entry
       else section)
    T section
  = section ++ join "" (map render_entry (slice_transcript T start_time end_time)).
Proof.
  revert section. unfold slice_transcript.
  induction T as [|x T IH]; intros section; simpl.
  - now rewrite str_app_nil_r.
  - rewrite IH. unfold in_slice at 2.
    destruct (Qle_bool (inject_Z start_time) (start x)
              && ((end_time =? 0)%Z
                  || Qle_bool (start x) (inject_Z end_time))); [|reflexivity].
    change (map render_entry (x :: ?l)) with (render_entry x :: map render_entry l).
    now rewrite join_empty_cons, str_app_assoc.
Qed.

Lemma in_slice_iff (s e : Z) (x : Segment) :
  in_slice s e x = true
  <-> (inject_Z s <= start x)%Q /\ (e = 0%Z \/ (start x <= inject_Z e)%Q).
Proof.
  unfold in_slice.
  now rewrite andb_true_iff, orb_true_iff, !Qle_bool_iff, Z.eqb_eq.
Qed.

Lemma slice_contiguous (T : list Segment) (s e : Z) :
  ascending T ->
  exists pre post : list Segment,
    T = (pre ++ slice_transcript T s e ++ post)%list.
Proof.
  intros Hasc.
  set (early := fun x : Segment => Qlt_bool (start x) (inject_Z s)).
  set (upto := fun x : Segment =>
                 (e =? 0)%Z || Qle_bool (start x) (inject_Z e)).
  assert (H1 : T = (filter early T ++ filter (fun x => negb (early x)) T)%list).
  { apply ascending_split; [|exact Hasc]. unfold early. intros x y Hxy Hy.
    apply Qlt_bool_iff. apply Qlt_bool_iff in Hy. lra. }
  set (rest := filter (fun x => negb (early x)) T) in *.
  assert (H2 : rest = (filter upto rest ++ filter (fun x => negb (upto x)) rest)%list).
  { apply ascending_split; [|now apply ascending_filter]. unfold upto.
    intros x y Hxy Hy. apply orb_true_iff. apply orb_true_iff in Hy.
    destruct Hy as [Hy | Hy]; [now left | right].
    apply Qle_bool_iff. apply Qle_bool_iff in Hy. lra. }
  exists (filter early T), (filter (fun x => negb (upto x)) rest).
  assert (Hslice : slice_transcript T s e = filter upto rest).
  { unfold rest, slice_transcript. rewrite filter_filter.
    apply filter_ext. intros x. unfold in_slice, early, upto, Qlt_bool.
    now rewrite negb_involutive. }
  rewrite Hslice, <- H2. exact H1.
Qed.

(** C6. On an object with a transcript, [fetch_transcript] writes one line
    per entry of the slice, in transcript order; the slice holds exactly the
    entries with [start >= start_time] and ([end_time = 0] or
    [start <= end_time]).  With [end_time = 0] these are all entries from
    [start_time] on.  With [end_time > 0] the slice is empty when
    [start_time > end_time], and it is empty when [start_time] exceeds every
    start; on a transcript ordered by start time it is a contiguous range of
    the transcript.  The function reads the object and returns a value: the
    transcript is the same before and after. *)
Theorem fetch_transcript_slice (td : TranscriptDict) (start_time end_time : Z)
  (Hav : has_transcript td = true) :
  let T := transcript_data td in
  let slice := slice_transcript T start_time end_time in
  fetch_transcript W td start_time end_time
  = Ok (join "" (map render_entry slice))
  /\ slice = filter (in_slice start_time end_time) T
  /\ (forall x : Segment,
        In x slice
        <-> In x T /\ (inject_Z start_time <= start x)%Q
            /\ (end_time = 0%Z \/ (start x <= inject_Z end_time)%Q))
  /\ (end_time = 0%Z ->
      slice = filter (fun x => Qle_bool (inject_Z start_time) (start x)) T)
  /\ ((0 < end_time)%Z ->
      (ascending T ->
       exists pre post : list Segment, T = (pre ++ slice ++ post)%list)
      /\ ((end_time < start_time)%Z -> slice = []))
  /\ ((forall x : Segment, In x T -> (start x < inject_Z start_time)%Q) ->
      slice = []).
Proof.
  intros T slice. split; [|split; [|split; [|split; [|split]]]].
  - unfold fetch_transcript. rewrite Hav. simpl. now rewrite fetch_loop.
  - reflexivity.
  - intros x. unfold slice, slice_transcript.
    now rewrite filter_In, in_slice_iff.
  - intros ->. unfold slice, slice_transcript. apply filter_ext.
    intros x. unfold in_slice. simpl. now rewrite andb_true_r.
  - intros Hpos. split; [apply slice_contiguous|].
    intros Hlt. unfold slice, slice_transcript.
    assert (Hnone : forall x, In x T -> in_slice start_time end_time x = false).
    { intros x _. destruct (in_slice start_time end_time x) eqn:Hx; [|reflexivity].
      apply in_slice_iff in Hx as [H1 [H2 | H2]]; [lia|].
      rewrite Zlt_Qlt in Hlt. lra. }
    clear -Hnone. induction T as [|x T IH]; simpl; [reflexivity|].
    rewrite (Hnone x) by now left. apply IH. intros y Hy. apply Hnone. now right.
  - intros Hall. unfold slice, slice_transcript.
    assert (Hnone : forall x, In x T -> in_slice start_time end_time x = false).
    { intros x Hx. destruct (in_slice start_time end_time x) eqn:Hs; [|reflexivity].
      apply in_slice_iff in Hs as [H1 _]. apply Hall in Hx. lra. }
    clear -Hnone. induction T as [|x T IH]; simpl; [reflexivity|].
    rewrite (Hnone x) by now left. apply IH. intros y Hy. apply Hnone. now right.
Qed.

End SliceFacts.

(** C6 on the slice from 5 s to the end of [peace_transcript]. *)
Lemma fetch_transcript_slice_witness :
  has_transcript (available peace_transcript) = true
  /\ slice_transcript peace_transcript 5 0 = [seg 5 "world peace"; seg 10 "now"]
  /\ fetch_transcript offline_world (available peace_transcript) 5 0
     = Ok (join "" (map render_entry (slice_transcript peace_transcript 5 0))).
Proof.
  split; [reflexivity|]. split; [reflexivity|].
  exact (proj1 (fetch_transcript_slice offline_world
                  (available peace_transcript) 5 0 eq_refl)).
Defined.

(** ** Timestamps *)

Lemma int_of_inject_Z (z : Z) : int_of (inject_Z z) = z.
Proof. unfold int_of. simpl. apply Z.quot_1_r. Qed.

Lemma floordiv_inject_Z (n : Z) (m : positive) :
  floordiv (inject_Z n) (inject_Z (Zpos m)) = inject_Z (n / Zpos m).
Proof. unfold floordiv. now rewrite <- Zdiv_Qdiv. Qed.

Lemma pymod_inject_Z (n : Z) (m : positive) :
  pymod (inject_Z n) (inject_Z (Zpos m)) = inject_Z (n mod Zpos m).
Proof.
  unfold pymod. rewrite floordiv_inject_Z.
  unfold Qminus, Qplus, Qopp, Qmult, inject_Z. cbn [Qnum Qden].
  f_equal. rewrite (Z.mod_eq n (Zpos m)) by discriminate. lia.
Qed.

Lemma format_timestamp_int (n : Z) :
  format_timestamp (inject_Z n)
  = if (n / 3600 >? 0)%Z
    then fmt_02d (n / 3600) ++ ":" ++ fmt_02d ((n mod 3600) / 60)
         ++ ":" ++ fmt_02d (n mod 60)
    else fmt_02d ((n mod 3600) / 60) ++ ":" ++ fmt_02d (n mod 60).
Proof.
  unfold format_timestamp.
  change 3600%Q with (inject_Z (Zpos 3600)).
  change 60%Q with (inject_Z (Zpos 60)).
  now rewrite !pymod_inject_Z, !floordiv_inject_Z, !int_of_inject_Z.
Qed.

Lemma fmt_02d_table :
  forallb (fun k => String.eqb (fmt_02d k) (two_digits k))
    (map Z.of_nat (seq 0 100)) = true.
Proof. vm_compute. reflexivity. Qed.

Lemma fmt_02d_two_digits (k : Z) :
  (0 <= k < 100)%Z -> fmt_02d k = two_digits k.
Proof.
  intros Hk. apply String.eqb_eq.
  apply (proj1 (forallb_forall _ _) fmt_02d_table).
  apply in_map_iff. exists (Z.to_nat k). split; [lia|]. apply in_seq. lia.
Qed.

Lemma str_of_int_two_chars (p : positive) :
  (10 <= Zpos p)%Z -> (2 <= String.length (str_of_int (Zpos p)))%nat.
Proof.
  intros Hp. unfold str_of_int. simpl.
  pose proof (DecimalPos.Unsigned.of_to p) as Hroundtrip.
  destruct (Pos.to_uint p) as [|d|d|d|d|d|d|d|d|d|d]; simpl;
    try (destruct d; simpl; try lia; vm_compute in Hroundtrip;
         inversion Hroundtrip; subst p; lia).
  vm_compute in Hroundtrip. discriminate.
Qed.

(** C9. For an integer number of seconds below one hour the timestamp is
    [MM:SS]; from one hour on it is [HH:MM:SS].  Minutes and seconds are
    always two digits; the hours are two digits below 100 hours and their
    plain decimal writing from 100 hours on. *)
Theorem format_timestamp_fields (n : Z) :
  let minutes := ((n mod 3600) / 60)%Z in
  let seconds := (n mod 60)%Z in
  let hours := (n / 3600)%Z in
  ((n < 3600)%Z ->
   format_timestamp (inject_Z n)
   = two_digits minutes ++ ":" ++ two_digits seconds)
  /\ ((0 <= n < 3600)%Z -> minutes = (n / 60)%Z)
  /\ ((3600 <= n)%Z ->
      format_timestamp (inject_Z n)
      = fmt_02d hours ++ ":" ++ two_digits minutes ++ ":" ++ two_digits seconds
      /\ ((hours < 100)%Z -> fmt_02d hours = two_digits hours)
      /\ ((100 <= hours)%Z ->
          fmt_02d hours = str_of_int hours
          /\ (2 <= String.length (fmt_02d hours))%nat)).
Proof.
  intros minutes seconds hours.
  assert (Hm : (0 <= minutes < 100)%Z).
  { unfold minutes.
    pose proof (Z.mod_pos_bound n 3600 ltac:(lia)).
    split; [apply Z.div_pos; lia | apply Z.div_lt_upper_bound; lia]. }
  assert (Hs : (0 <= seconds < 100)%Z).
  { unfold seconds. pose proof (Z.mod_pos_bound n 60 ltac:(lia)). lia. }
  rewrite format_timestamp_int. fold hours minutes seconds.
  rewrite (fmt_02d_two_digits minutes Hm), (fmt_02d_two_digits seconds Hs).
  split; [|split].
  - intros Hn.
    assert (Hh : (hours <= 0)%Z).
    { unfold hours. apply Z.lt_succ_r. apply Z.div_lt_upper_bound; lia. }
    destruct (hours >? 0)%Z eqn:Hgt; [lia | reflexivity].
  - intros Hn. unfold minutes. now rewrite Z.mod_small.
  - intros Hn.
    assert (Hh : (0 < hours)%Z).
    { unfold hours. apply Z.div_str_pos. lia. }
    destruct (hours >? 0)%Z eqn:Hgt; [|lia].
    split; [reflexivity|]. split.
    + intros Hlt. apply fmt_02d_two_digits. lia.
    + intros Hge. unfold fmt_02d.
      destruct (String.length (str_of_int hours) <? 2)%nat eqn:Hlen.
      * exfalso. apply Nat.ltb_lt in Hlen.
        destruct hours as [|p|p]; try lia.
        pose proof (str_of_int_two_chars p ltac:(lia)). lia.
      * split; [reflexivity|]. apply Nat.ltb_ge in Hlen. exact Hlen.
Qed.

(** ** Worked examples *)

(** C1 on [peace_transcript]: the query is in the segment at index 1. *)
Lemma primary_pass_complete_witness :
  nth_error peace_transcript 1 = Some (seg 5 "world peace")
  /\ is_substring (ascii_lower "Peace") (ascii_lower "world peace")
  /\ In (1%nat, seg 5 "world peace")
       (primary_pass ascii_lower peace_transcript (ascii_lower "Peace")).
Proof.
  assert (Hsub : is_substring (ascii_lower "Peace") (ascii_lower "world peace"))
    by (exists "world ", ""; reflexivity).
  split; [reflexivity|]. split; [exact Hsub|].
  exact (proj1 (primary_pass_complete ascii_lower peace_transcript "Peace" 1
                  (seg 5 "world peace") eq_refl Hsub)).
Defined.

(** A query found inside one segment: one record, not cross-segment. *)
Example peace_single_record :
  map (fun r => (match_ r, is_cross_segment r, next_segment r))
    (get_query_usages_with_context ascii_lower (available peace_transcript)
       "peace" 15)
  = [(seg 5 "world peace", false, None)].
Proof. vm_compute. reflexivity. Qed.

(** A phrase split between two segments: the primary pass finds nothing, the
    sliding window pairs indices 0 and 1 and one record is built. *)
Example split_phrase_one_record :
  primary_pass ascii_lower split_phrase_transcript "hello world" = []
  /\ find_matches ascii_lower split_phrase_transcript "hello world"
     = [(0%nat, seg 0 "Hello"); (1%nat, seg 5 "world")]
  /\ map (fun r => (match_ r, is_cross_segment r, next_segment r,
                    entries (context_after r)))
       (get_query_usages_with_context ascii_lower
          (available split_phrase_transcript) "Hello World" 15)
     = [(seg 0 "Hello", true, Some (seg 5 "world"), [seg 10 "out there"])].
Proof. repeat split; vm_compute; reflexivity. Qed.

(** A word cut in the middle is not recovered, since the two texts are
    joined with a space. *)
Example split_word_not_found :
  find_matches ascii_lower [seg 0 "hello wor"; seg 5 "ld now"] "world" = [].
Proof. reflexivity. Qed.

Example get_query_usages_peace :
  get_query_usages ascii_lower (available peace_transcript) "PEACE"
  = [(inject_Z 5, "world peace")].
Proof. reflexivity. Qed.

Example format_timestamp_examples :
  format_timestamp (inject_Z 65) = "01:05"
  /\ format_timestamp (inject_Z 3725) = "01:02:05"
  /\ format_timestamp (7 # 2) = "00:03"
  /\ format_timestamp (inject_Z 360000) = "100:00:00".
Proof. repeat split; reflexivity. Qed.

Example parse_video_id_bare :
  parse_video_id offline_world "dQw4w9WgXcQ" = Ok "dQw4w9WgXcQ".
Proof. reflexivity. Qed.

(** * Further properties of the engine *)

Lemma ascending_nth (T : list Segment) (i j : nat) (a b : Segment) :
  ascending T -> (i <= j)%nat ->
  nth_error T i = Some a -> nth_error T j = Some b ->
  (start a <= start b)%Q.
Proof.
  unfold ascending. intros Hasc. revert i j.
  induction Hasc as [|x l Hs IH Hall]; intros i j Hij Ha Hb.
  - destruct i; discriminate.
  - destruct i as [|i], j as [|j]; simpl in *; try lia.
    + inversion Ha; inversion Hb; subst. apply Qle_refl.
    + inversion Ha; subst. rewrite Forall_forall in Hall.
      apply Hall. eapply nth_error_In; eauto.
    + apply (IH i j); auto; lia.
Qed.

Section WindowInvariants.

Variable lower : string -> string.

Lemma build_record_before (T : list Segment) (w : Z) (e : Segment)
  (next : option Segment) (x : Segment) :
  In x (entries (context_before (build_record T w e next)))
  -> In x T /\ (start x < start e)%Q.
Proof.
  simpl. rewrite filter_In, andb_true_iff, Qlt_bool_iff. tauto.
Qed.

Lemma build_record_after (T : list Segment) (w : Z) (e : Segment)
  (next : option Segment) (x : Segment) :
  In x (entries (context_after (build_record T w e next)))
  -> In x T /\ (start e < start x)%Q
     /\ forall n : Segment, next = Some n -> ~ (start x == start n)%Q.
Proof.
  simpl. rewrite filter_In, !andb_true_iff, Qlt_bool_iff, negb_true_iff.
  intros (Hx & (H1 & _) & H3). repeat split; auto.
  intros n -> Heq. simpl in H3. apply Qeq_bool_iff in Heq. congruence.
Qed.

(** The match is in neither of its context windows and no entry is in
    both; the paired segment of a cross-segment match is not in the window
    after the match and, on a transcript ordered by start time, not in the
    window before it either. *)
Theorem windows_exclude_match (td : TranscriptDict) (query : string) (w : Z)
  (r : MatchRecord)
  (Hr : In r (get_query_usages_with_context lower td query w)) :
  ~ In (match_ r) (entries (context_before r))
  /\ ~ In (match_ r) (entries (context_after r))
  /\ (forall e : Segment,
        In e (entries (context_before r)) ->
        ~ In e (entries (context_after r)))
  /\ (forall n : Segment,
        next_segment r = Some n ->
        ~ In n (entries (context_after r))
        /\ (ascending (transcript_data td) ->
            ~ In n (entries (context_before r)))).
Proof.
  apply record_in in Hr as (i & e & _ & Hnth & ->).
  set (matches := find_matches lower (transcript_data td) (lower query)).
  cbn [match_ next_segment build_record].
  split; [|split; [|split]].
  - intros H. apply build_record_before in H as [_ H]. lra.
  - intros H. apply build_record_after in H as (_ & H & _). lra.
  - intros x H1 H2. apply build_record_before in H1 as [_ H1].
    apply build_record_after in H2 as (_ & H2 & _). lra.
  - intros n Hn. split.
    + intros H. apply build_record_after in H as (_ & _ & H).
      apply (H n Hn). apply Qeq_refl.
    + intros Hasc H. apply build_record_before in H as [_ H].
      apply find_adjacent_some, find_matches_nth in Hn.
      pose proof (ascending_nth _ i (i + 1) e n Hasc ltac:(lia) Hnth Hn).
      lra.
Qed.

(** Nothing inside the window after the match is missed: every entry of the
    window is a transcript segment that starts after the match and not at
    the start of the paired segment, and every transcript segment that
    starts after the match, at most [context_window] seconds after it (or
    after the paired segment of a cross-segment match), and not at the start
    of the paired segment, is an entry of the window. *)
Theorem context_after_complete (td : TranscriptDict) (query : string)
  (w : Z) (r : MatchRecord)
  (Hr : In r (get_query_usages_with_context lower td query w)) :
  let T := transcript_data td in
  let t := start (match_ r) in
  (forall x : Segment,
     In x (entries (context_after r)) ->
     In x T /\ (t < start x)%Q
     /\ forall n : Segment,
          next_segment r = Some n -> ~ (start x == start n)%Q)
  /\ (forall x : Segment,
        In x T -> (t < start x)%Q ->
        ((start x <= t + inject_Z w)%Q
         \/ exists n : Segment,
              next_segment r = Some n
              /\ (start x <= start n + inject_Z w)%Q) ->
        (forall n : Segment,
           next_segment r = Some n -> ~ (start x == start n)%Q) ->
        In x (entries (context_after r))).
Proof.
  apply record_in in Hr as (i & e & _ & _ & ->).
  set (next := find_adjacent
                 (find_matches lower (transcript_data td) (lower query)) i).
  cbn [match_ next_segment build_record]. split.
  - intros x Hx. now apply build_record_after in Hx.
  - intros x Hx Hafter Hbound Hskip.
    cbn [context_after build_record collect_after entries].
    apply filter_In. split; [exact Hx|].
    rewrite !andb_true_iff, Qlt_bool_iff, Qle_bool_iff, negb_true_iff.
    split; [split; [exact Hafter|]|].
    + pose proof (after_limit_ge (start e) w next) as Hge.
      destruct Hbound as [Hb | (n & Hn & Hb)]; [lra|].
      rewrite Hn. unfold after_limit.
      destruct (py_max_spec (start e + inject_Z w) (start n + inject_Z w))
        as [[-> H] | [-> H]]; lra.
    + unfold skipped. destruct next as [n|]; [|reflexivity].
      destruct (Qeq_bool (start x) (start n)) eqn:Heq; [|reflexivity].
      exfalso. apply (Hskip n eq_refl). now apply Qeq_bool_iff.
Qed.

Lemma window_hits_hit (T : list Segment) (q : string) (i : nat)
  (m : nat * Segment) :
  In m (window_hits lower T q i) ->
  exists a b : Segment,
    nth_error T i = Some a /\ nth_error T (i + 1) = Some b
    /\ is_substring q (lower (text a) ++ " " ++ lower (text b)).
Proof.
  unfold window_hits.
  destruct (nth_error T i) as [cur|]; [|contradiction].
  destruct (nth_error T (i + 1)) as [nxt|]; [|contradiction].
  destruct (str_in _ _) eqn:Hin; [|contradiction].
  intros _. exists cur, nxt. repeat split. now apply str_in_spec.
Qed.

Lemma emitted_nil (matches : list (nat * Segment)) :
  emitted matches = [] <-> matches = [].
Proof.
  unfold emitted. destruct matches as [|[i e] l]; simpl; [tauto|].
  split; discriminate.
Qed.

(** The search returns no record exactly when no segment contains the
    lowercased query and no two consecutive segments, joined by one space,
    contain it. *)
Theorem search_empty_iff (vid url : string) (T : list Segment)
  (query : string) (w : Z) :
  let td := {| video_id := vid; video_url := url;
               transcript_data := T; has_transcript := true |} in
  let q := lower query in
  get_query_usages_with_context lower td query w = []
  <-> (forall (i : nat) (s : Segment),
         nth_error T i = Some s -> ~ is_substring q (lower (text s)))
      /\ (forall (i : nat) (a b : Segment),
            nth_error T i = Some a -> nth_error T (i + 1) = Some b ->
            ~ is_substring q (lower (text a) ++ " " ++ lower (text b))).
Proof.
  intros td q. unfold get_query_usages_with_context. simpl.
  change (lower query) with q. clearbody q.
  rewrite build_match_records_emitted.
  split.
  - intros H. apply map_eq_nil in H. apply (proj1 (emitted_nil _)) in H.
    unfold find_matches in H.
    destruct (primary_pass lower T q) eqn:Hp; [|discriminate]. split.
    + intros i s Hi Hsub.
      assert (Hin : In (i, s) (primary_pass lower T q))
        by (apply primary_pass_spec; auto).
      rewrite Hp in Hin. contradiction.
    + intros i a b Ha Hb Hsub.
      destruct (fallback_pass_pair lower T q i a b Ha Hb Hsub)
        as (l1 & l2 & Heq).
      rewrite H in Heq. destruct l1; discriminate.
  - intros [Hsingle Hpair].
    assert (Hm : find_matches lower T q = []).
    { unfold find_matches.
      destruct (primary_pass lower T q) as [|[i s] l] eqn:Hp.
      - unfold fallback_pass.
        destruct (flat_map _ _) as [|m l] eqn:Hf; [reflexivity|].
        assert (Hin : In m (flat_map (window_hits lower T q)
                              (seq 0 (List.length T - 1))))
          by (rewrite Hf; now left).
        apply in_flat_map in Hin as (i & _ & Hin).
        apply window_hits_hit in Hin as (a & b & Ha & Hb & Hsub).
        exfalso. exact (Hpair i a b Ha Hb Hsub).
      - assert (Hin : In (i, s) (primary_pass lower T q))
          by (rewrite Hp; now left).
        apply primary_pass_spec in Hin as [Hi Hsub].
        exfalso. exact (Hsingle i s Hi Hsub). }
    rewrite Hm. reflexivity.
Qed.

End WindowInvariants.

Lemma windows_exclude_match_witness :
  let r := build_record split_phrase_transcript 15 (seg 0 "Hello")
             (Some (seg 5 "world")) in
  In r (get_query_usages_with_context ascii_lower
          (available split_phrase_transcript) "Hello World" 15)
  /\ ~ In (match_ r) (entries (context_after r))
  /\ ~ In (seg 5 "world") (entries (context_after r)).
Proof.
  intros r.
  assert (Hr : In r (get_query_usages_with_context ascii_lower
                       (available split_phrase_transcript) "Hello World" 15))
    by (vm_compute; left; reflexivity).
  split; [exact Hr|].
  destruct (windows_exclude_match ascii_lower _ _ _ _ Hr)
    as (_ & Hm & _ & Hn).
  split; [exact Hm | exact (proj1 (Hn (seg 5 "world") eq_refl))].
Defined.

Lemma context_after_complete_witness :
  let r := build_record split_phrase_transcript 15 (seg 0 "Hello")
             (Some (seg 5 "world")) in
  In r (get_query_usages_with_context ascii_lower
          (available split_phrase_transcript) "Hello World" 15)
  /\ In (seg 10 "out there") (entries (context_after r)).
Proof.
  intros r.
  assert (Hr : In r (get_query_usages_with_context ascii_lower
                       (available split_phrase_transcript) "Hello World" 15))
    by (vm_compute; left; reflexivity).
  split; [exact Hr|].
  destruct (context_after_complete ascii_lower _ _ _ _ Hr) as [_ Hall].
  apply Hall.
  - right; right; left; reflexivity.
  - reflexivity.
  - left. vm_compute. discriminate.
  - intros n Hn. inversion Hn; subst n. vm_compute. discriminate.
Defined.

(** ** The dictionary of [get_query_usages] *)

Lemma Qeq_bool_trans_l (a b c : Q) :
  Qeq_bool a b = true -> Qeq_bool b c = Qeq_bool a c.
Proof.
  intros Hab. apply Qeq_bool_iff in Hab.
  destruct (Qeq_bool b c) eqn:Hbc, (Qeq_bool a c) eqn:Hac; auto.
  - apply Qeq_bool_iff in Hbc.
    assert (Qeq_bool a c = true)
      by (apply Qeq_bool_iff; now rewrite Hab, Hbc).
    congruence.
  - apply Qeq_bool_iff in Hac.
    assert (Qeq_bool b c = true)
      by (apply Qeq_bool_iff; now rewrite <- Hab, Hac).
    congruence.
Qed.

Lemma dict_lookup_set (k0 k : Q) (v : string) (d : list (Q * string)) :
  dict_lookup k (dict_set k0 v d)
  = if Qeq_bool k0 k then Some v else dict_lookup k d.
Proof.
  induction d as [|[k' v'] d IH]; simpl; [reflexivity|].
  destruct (Qeq_bool k' k0) eqn:H0; simpl.
  - rewrite (Qeq_bool_trans_l k' k0 k H0).
    destruct (Qeq_bool k' k); reflexivity.
  - rewrite IH. destruct (Qeq_bool k' k) eqn:Hk; [|reflexivity].
    destruct (Qeq_bool k0 k) eqn:H0k; [|reflexivity].
    apply Qeq_bool_iff in Hk, H0k.
    assert (Qeq_bool k' k0 = true)
      by (apply Qeq_bool_iff; now rewrite Hk, H0k).
    congruence.
Qed.

Lemma last_entry_cons {A : Type} (x : A) (l : list A) :
  last_entry (x :: l)
  = match last_entry l with Some y => Some y | None => Some x end.
Proof.
  destruct l as [|y l]; [reflexivity|].
  change (last_entry (x :: y :: l)) with (last_entry (y :: l)).
  assert (H : last_entry (y :: l) <> None).
  { clear x. revert y. induction l as [|z l IH]; intros y; [discriminate|].
    change (last_entry (y :: z :: l)) with (last_entry (z :: l)). apply IH. }
  destruct (last_entry (y :: l)); [reflexivity | contradiction].
Qed.

Section UsageFacts.

Variable lower : string -> string.

Lemma usages_loop (q : string) (k : Q) (T : list Segment)
  (results : list (Q * string)) :
  dict_lookup k
    (fold_left
       (fun results entry =>
          if str_in q (lower (text entry))
          then dict_set (start entry) (text entry) results
          else results)
       T results)
  = match last_entry
            (filter (fun e => str_in q (lower (text e))
                              && Qeq_bool (start e) k) T) with
    | Some e => Some (text e)
    | None => dict_lookup k results
    end.
Proof.
  revert results. induction T as [|x T IH]; intros results; simpl;
    [reflexivity|].
  rewrite IH. destruct (str_in q (lower (text x))) eqn:Hin; simpl;
    [|reflexivity].
  rewrite dict_lookup_set.
  destruct (Qeq_bool (start x) k); [|reflexivity].
  rewrite last_entry_cons.
  destruct (last_entry _); reflexivity.
Qed.

(** Looking a start time up in the dictionary of [get_query_usages] gives
    the text of the last segment that contains the query and starts at that
    time, and nothing when there is no such segment. *)
Theorem get_query_usages_lookup (vid url : string) (T : list Segment)
  (query : string) (k : Q) :
  let td := {| video_id := vid; video_url := url;
               transcript_data := T; has_transcript := true |} in
  dict_lookup k (get_query_usages lower td query)
  = option_map text
      (last_entry
         (filter (fun e => str_in (lower query) (lower (text e))
                           && Qeq_bool (start e) k) T)).
Proof.
  intros td. unfold get_query_usages. simpl. rewrite usages_loop.
  destruct (last_entry _); reflexivity.
Qed.

End UsageFacts.

(** ** Resolving and describing the video *)

Lemma no_sep_cons (sep c : ascii) (s : string) :
  c <> sep -> no_sep sep s -> no_sep sep (String c s).
Proof.
  intros Hc Hs pre post H. destruct pre as [|d pre]; simpl in H.
  - inversion H. contradiction.
  - inversion H. eapply Hs. eassumption.
Qed.

Lemma no_sep_inv (sep c : ascii) (s : string) :
  no_sep sep (String c s) -> c <> sep /\ no_sep sep s.
Proof.
  intros H. split.
  - intros ->. now apply (H "" s).
  - intros pre post Heq. apply (H (String c pre) post). simpl. now rewrite Heq.
Qed.

Lemma split_on_no_sep (sep : ascii) (s : string) :
  no_sep sep s -> split_on sep s = [s].
Proof.
  induction s as [|c s IH]; intros H; [reflexivity|].
  apply no_sep_inv in H as [Hc Hs]. simpl.
  apply Ascii.eqb_neq in Hc. rewrite Hc, (IH Hs). reflexivity.
Qed.

Lemma split_on_nonnil (sep : ascii) (s : string) : split_on sep s <> [].
Proof.
  destruct s as [|c s]; simpl; [discriminate|].
  destruct (Ascii.eqb c sep); [discriminate|].
  destruct (split_on sep s); discriminate.
Qed.

Lemma split_on_single (sep : ascii) (s piece : string) :
  split_on sep s = [piece] -> no_sep sep s.
Proof.
  revert piece. induction s as [|c s IH]; intros piece H.
  - intros pre post Heq. destruct pre; discriminate.
  - simpl in H. destruct (Ascii.eqb c sep) eqn:Hc.
    + inversion H as [[Hp Hnil]]. now apply split_on_nonnil in Hnil.
    + apply Ascii.eqb_neq in Hc.
      destruct (split_on sep s) as [|p [|p2 ps]] eqn:Hs; try discriminate.
      * now apply split_on_nonnil in Hs.
      * apply no_sep_cons; [exact Hc | now apply (IH p)].
Qed.

(** What [s.split(sep)[-1]] is: the text after the last separator. *)
Lemma last_split_on (sep : ascii) (s : string) :
  exists before : string,
    s = before ++ last (split_on sep s) ""
    /\ (before = ""
        \/ exists b : string, before = b ++ String sep EmptyString)
    /\ no_sep sep (last (split_on sep s) "").
Proof.
  induction s as [|c s (before & Heq & Hbefore & Hno)].
  - exists "". simpl. repeat split; auto. intros pre post H.
    destruct pre; discriminate.
  - simpl. destruct (Ascii.eqb c sep) eqn:Hc.
    + apply Ascii.eqb_eq in Hc. subst c.
      assert (Hlast : last ("" :: split_on sep s) ""
                      = last (split_on sep s) "").
      { destruct (split_on sep s) eqn:Hs; reflexivity. }
      rewrite Hlast. exists (String sep before).
      split; [simpl; congruence|]. split; [|exact Hno]. right.
      destruct Hbefore as [-> | [b ->]]; [exists ""|exists (String sep b)];
        reflexivity.
    + apply Ascii.eqb_neq in Hc.
      destruct (split_on sep s) as [|piece [|p2 pieces]] eqn:Hs.
      * now apply split_on_nonnil in Hs.
      * pose proof (split_on_single _ _ _ Hs) as Hs'.
        simpl in *. exists "". simpl.
        assert (s = piece).
        { rewrite (split_on_no_sep _ _ Hs') in Hs. now inversion Hs. }
        subst piece. repeat split; auto. now apply no_sep_cons.
      * change (last (String c piece :: p2 :: pieces) "")
          with (last (p2 :: pieces) "").
        change (last (piece :: p2 :: pieces) "")
          with (last (p2 :: pieces) "") in Heq, Hno.
        exists (String c before).
        split; [change (String c s = String c (before ++ last (p2 :: pieces) ""));
                congruence|].
        split; [|exact Hno]. right.
        destruct Hbefore as [-> | [b ->]]; [|exists (String c b); reflexivity].
        exfalso. simpl in Heq.
        assert (Hs' : no_sep sep s) by (rewrite Heq; exact Hno).
        rewrite (split_on_no_sep _ _ Hs') in Hs. discriminate.
Qed.

Lemma full_transcript_loop (T : list Segment) (acc : string) :
  fold_left (fun formatted_transcript entry =>
               formatted_transcript ++ render_entry entry) T acc
  = acc ++ join "" (map render_entry T).
Proof.
  revert acc. induction T as [|x T IH]; intros acc.
  - simpl. now rewrite str_app_nil_r.
  - change (map render_entry (x :: T))
      with (render_entry x :: map render_entry T).
    rewrite join_empty_cons. simpl. now rewrite IH, str_app_assoc.
Qed.

Lemma slice_all (T : list Segment) (s : Z) :
  (forall x : Segment, In x T -> (inject_Z s <= start x)%Q) ->
  slice_transcript T s 0 = T.
Proof.
  unfold slice_transcript. induction T as [|x T IH]; intros H;
    [reflexivity|].
  simpl. unfold in_slice at 1.
  assert (Hx : Qle_bool (inject_Z s) (start x) = true)
    by (apply Qle_bool_iff, H; now left).
  rewrite Hx. simpl. rewrite IH; [reflexivity|].
  intros y Hy. apply H. now right.
Qed.

Section ToolFacts.

Variable lower : string -> string.
Variable W : World.

(** When the URL resolves, [get_video_title] never fails: it returns the
    title of a 200 answer, and ["Video <id>"] in every other case. *)
Theorem get_video_title_fallback (url vid : string)
  (Hp : parse_video_id W url = Ok vid) :
  exists title : string,
    get_video_title W url = Ok title
    /\ ((exists response : Response,
           requests_get W (oembed_url vid) = Ok response
           /\ status_code response = 200%Z
           /\ json_title response = Ok title)
        \/ (title = "Video " ++ vid
            /\ forall (response : Response) (t : string),
                 requests_get W (oembed_url vid) = Ok response ->
                 status_code response = 200%Z ->
                 json_title response <> Ok t)).
Proof.
  assert (Heq : get_video_title W url
                = try_except
                    (response <- requests_get W (oembed_url vid) ;;
                     if (status_code response =? 200)%Z
                     then json_title response
                     else Ok ("Video " ++ vid))
                    (fun _ => Ok ("Video " ++ vid)))
    by (unfold get_video_title; rewrite Hp; reflexivity).
  rewrite Heq. clear Heq.
  destruct (requests_get W (oembed_url vid)) as [response|err] eqn:Hr;
    cbn [bind try_except].
  - destruct (status_code response =? 200)%Z eqn:Hs.
    + apply Z.eqb_eq in Hs.
      destruct (json_title response) as [t|err] eqn:Hj.
      * exists t. split; [reflexivity|]. left. exists response. auto.
      * eexists. split; [reflexivity|]. right. split; [reflexivity|].
        intros r t H. inversion H; subst r. congruence.
    + apply Z.eqb_neq in Hs. eexists. split; [reflexivity|]. right.
      split; [reflexivity|]. intros r t H. inversion H; subst r. congruence.
  - eexists. split; [reflexivity|]. right. split; [reflexivity|].
    intros r t H. discriminate.
Qed.

(** The constructor fails only on a resolution error; the object it builds
    keeps the URL and the resolved ID, holds the fetched transcript when the
    fetch succeeded, and is marked unavailable with an empty transcript
    when the fetch failed. *)
Theorem TranscriptDict_init_object (url : string) :
  (forall e : exn,
     TranscriptDict_init W url = Raise e <-> parse_video_id W url = Raise e)
  /\ forall td : TranscriptDict,
       TranscriptDict_init W url = Ok td ->
       video_url td = url
       /\ parse_video_id W url = Ok (video_id td)
       /\ (has_transcript td = true ->
           fetch_english W (video_id td) = Ok (transcript_data td))
       /\ (has_transcript td = false ->
           transcript_data td = []
           /\ exists e : exn, fetch_english W (video_id td) = Raise e).
Proof.
  unfold TranscriptDict_init.
  destruct (parse_video_id W url) as [vid|err]; simpl.
  - split.
    + intros e. destruct (fetch_english W vid); split; discriminate.
    + intros td. destruct (fetch_english W vid) as [data|err] eqn:Hf;
        intros H; inversion H; subst td; simpl; rewrite ?Hf;
        repeat split; auto; try discriminate.
      exists err. reflexivity.
  - split; [|discriminate].
    intros e. split; intros H; inversion H; reflexivity.
Qed.

Lemma generate_link_ok (url vid : string) (t : Z) :
  parse_video_id W url = Ok vid ->
  generate_link W url t
  = Ok ("https://www.youtube.com/watch?v=" ++ vid ++ "&t="
        ++ str_of_int t ++ "s").
Proof. intros Hp. unfold generate_link. now rewrite Hp. Qed.

Lemma results_loop_ok (url vid : string) (rs : list (nat * MatchRecord))
  (head : string) :
  parse_video_id W url = Ok vid ->
  exists body : string,
    fold_left
      (fun acc ir =>
         formatted_results <- acc ;;
         block <- format_result W url (fst ir) (snd ir) ;;
         Ok (formatted_results ++ block))
      rs (Ok head)
    = Ok (head ++ body).
Proof.
  intros Hp. revert head. induction rs as [|[i r] rs IH]; intros head.
  - exists "". simpl. now rewrite str_app_nil_r.
  - simpl. unfold format_result at 2. rewrite (generate_link_ok _ _ _ Hp).
    simpl. match goal with
           | |- context [fold_left _ rs (Ok (head ++ ?b))] =>
               destruct (IH (head ++ b)) as [body ->]; exists (b ++ body)
           end.
    now rewrite str_app_assoc.
Qed.

(** With a resolvable URL and a fetched transcript, [search_transcript]
    answers "No matches found" when the engine finds no match for the query
    lowercased by the tool, and otherwise a text that starts with the number
    of records. *)
Theorem search_transcript_report (url vid query : string) (w : Z)
  (T : list Segment)
  (Hp : parse_video_id W url = Ok vid)
  (Hf : fetch_english W vid = Ok T) :
  exists title : string,
    get_video_title W url = Ok title
    /\ let td := {| video_id := vid; video_url := url;
                    transcript_data := T; has_transcript := true |} in
       let results :=
         get_query_usages_with_context lower td (lower query) w in
       (results = [] ->
        search_transcript lower W url query w
        = Ok ("No matches found for '" ++ query ++ "' in video: " ++ title))
       /\ (results <> [] ->
           exists body : string,
             search_transcript lower W url query w
             = Ok (("Found " ++ str_of_int (Z.of_nat (List.length results))
                    ++ " matches for '" ++ query ++ "' in video: " ++ title
                    ++ nl ++ nl) ++ body)).
Proof.
  destruct (get_video_title_ok W url vid Hp) as [title Ht].
  exists title. split; [exact Ht|]. intros td results.
  unfold search_transcript, TranscriptDict_init.
  rewrite Ht. cbn [bind]. rewrite Hp. cbn [bind]. rewrite Hf.
  cbn [bind has_transcript negb]. fold td. fold results. split.
  - intros ->. reflexivity.
  - intros Hne. destruct results as [|r rs] eqn:Hres; [contradiction|].
    match goal with
    | |- context [fold_left _ ?l (Ok ?h)] =>
        destruct (results_loop_ok url vid l h Hp) as [body Hb]
    end.
    exists body. cbv zeta. rewrite Hb. reflexivity.
Qed.

(** When the URL resolves and the transcript cannot be fetched, each tool
    that needs the transcript returns its own "No transcript available"
    text, built on the title. *)
Theorem tools_without_transcript (url vid query : string)
  (w start_time end_time : Z) (err : exn)
  (Hp : parse_video_id W url = Ok vid)
  (Hf : fetch_english W vid = Raise err) :
  exists title : string,
    get_video_title W url = Ok title
    /\ get_full_transcript W url
       = Ok ("No transcript available for video: " ++ title ++ ")")
    /\ search_transcript lower W url query w
       = Ok ("No transcript available for video: " ++ title)
    /\ get_transcript_section W url start_time end_time
       = Ok ("No transcript available for video: " ++ title
             ++ " (ID: " ++ vid ++ ")").
Proof.
  destruct (get_video_title_ok W url vid Hp) as [title Ht].
  exists title. split; [exact Ht|].
  unfold get_full_transcript, search_transcript, get_transcript_section,
    TranscriptDict_init, fetch_transcript.
  rewrite Hp, Ht. cbn [bind]. rewrite Hf. simpl. rewrite Ht. simpl. auto.
Qed.

(** With a fetched transcript [get_full_transcript] writes one line per
    entry, and the section from a start time that no entry precedes to the
    end of the video ([end_time = 0]) is the same text. *)
Theorem full_transcript_is_whole_section (url vid : string)
  (T : list Segment) (start_time : Z)
  (Hp : parse_video_id W url = Ok vid)
  (Hf : fetch_english W vid = Ok T)
  (Hs : forall x : Segment, In x T -> (inject_Z start_time <= start x)%Q) :
  get_full_transcript W url = Ok (join "" (map render_entry T))
  /\ exists td : TranscriptDict,
       TranscriptDict_init W url = Ok td
       /\ fetch_transcript W td start_time 0 = get_full_transcript W url.
Proof.
  assert (Hfull : get_full_transcript W url
                  = Ok (join "" (map render_entry T))).
  { unfold get_full_transcript. rewrite Hp. simpl. rewrite Hf. simpl.
    now rewrite full_transcript_loop. }
  split; [exact Hfull|].
  unfold TranscriptDict_init. rewrite Hp. cbn [bind]. rewrite Hf.
  eexists. split; [reflexivity|].
  rewrite Hfull. unfold fetch_transcript.
  cbn [has_transcript negb transcript_data].
  rewrite fetch_loop, (slice_all T start_time Hs). reflexivity.
Qed.

Lemma try_except_ok {A : Type} (body : result A) (handler : exn -> result A) :
  (forall e : exn, exists a : A, handler e = Ok a) ->
  exists a : A, try_except body handler = Ok a.
Proof.
  intros H. destruct body as [a|e]; simpl; [eauto | apply H].
Qed.

Lemma tools_ok (url vid query : string) (w start_time end_time : Z) :
  parse_video_id W url = Ok vid ->
  (exists t, get_full_transcript W url = Ok t)
  /\ (exists t, get_video_information W url = Ok t)
  /\ (exists t, search_transcript lower W url query w = Ok t)
  /\ (exists t, get_transcript_section W url start_time end_time = Ok t).
Proof.
  intros Hp. destruct (get_video_title_ok W url vid Hp) as [title Ht].
  unfold get_full_transcript, get_video_information, search_transcript,
    get_transcript_section.
  rewrite Hp, Ht. cbn [bind].
  repeat split; apply try_except_ok; intros e; try rewrite Ht; simpl; eauto.
Qed.

(** Each tool raises exactly when [parse_video_id] raises on the URL, and it
    raises that exception; every other failure becomes text. *)
Theorem tools_raise_iff (url query : string) (w start_time end_time : Z)
  (e : exn) :
  (get_full_transcript W url = Raise e <-> parse_video_id W url = Raise e)
  /\ (get_video_information W url = Raise e
      <-> parse_video_id W url = Raise e)
  /\ (search_transcript lower W url query w = Raise e
      <-> parse_video_id W url = Raise e)
  /\ (get_transcript_section W url start_time end_time = Raise e
      <-> parse_video_id W url = Raise e).
Proof.
  destruct (parse_video_id W url) as [vid|err] eqn:Hp.
  - destruct (tools_ok url vid query w start_time end_time Hp)
      as ([t1 H1] & [t2 H2] & [t3 H3] & [t4 H4]).
    rewrite H1, H2, H3, H4. repeat split; discriminate.
  - destruct (tools_reraise lower W url query w start_time end_time err Hp)
      as (H1 & H2 & H3 & H4).
    rewrite H1, H2, H3, H4. tauto.
Qed.

End ToolFacts.

Section ResolverFacts.

Variable W : World.

(** How [parse_video_id] ends once [urlparse] has split the URL: with no
    "live" in the path and an empty query the URL itself is the ID; with a
    query, the ID is the first value of [v]; it raises exactly when the path
    has no "live", the query is not empty and [v] is missing
    ([KeyError]) or has no value ([IndexError]). *)
Theorem parse_video_id_cases (url : string) (parsed : ParseResult)
  (Hu : urlparse W url = Ok parsed) :
  (str_in "live" (path parsed) = false -> query parsed = "" ->
   parse_video_id W url = Ok url)
  /\ (forall (v : string) (vs : list string),
        str_in "live" (path parsed) = false -> query parsed <> "" ->
        dict_get "v" (parse_qs W (query parsed)) = Some (v :: vs) ->
        parse_video_id W url = Ok v)
  /\ (forall e : exn,
        parse_video_id W url = Raise e
        <-> str_in "live" (path parsed) = false
            /\ query parsed <> ""
            /\ ((dict_get "v" (parse_qs W (query parsed)) = None
                 /\ e = KeyError "v")
                \/ (dict_get "v" (parse_qs W (query parsed)) = Some []
                    /\ e = IndexError))).
Proof.
  unfold parse_video_id. rewrite Hu. cbn [bind].
  destruct (str_in "live" (path parsed)) eqn:Hlive.
  - split; [discriminate|]. split; [discriminate|].
    intros e. split; [discriminate | intros [H _]; discriminate].
  - destruct (query parsed) as [|c qs] eqn:Hq; cbn [str_truthy].
    + split; [reflexivity|]. split; [congruence|].
      intros e. split; [discriminate | intros (_ & H & _); congruence].
    + split; [discriminate|]. split.
      * intros v vs _ _ Hv. now rewrite Hv.
      * intros e.
        destruct (dict_get "v" (parse_qs W (String c qs))) as [[|v vs]|].
        -- split.
           ++ intros H. inversion H. repeat split; try discriminate.
              right. auto.
           ++ intros (_ & _ & [[H _] | [_ ->]]); [discriminate | reflexivity].
        -- split; [discriminate|].
           intros (_ & _ & [[H _] | [H _]]); discriminate.
        -- split.
           ++ intros H. inversion H. repeat split; try discriminate.
              left. auto.
           ++ intros (_ & _ & [[_ ->] | [H _]]); [reflexivity | discriminate].
Qed.

(** For a URL whose path contains "live" the ID is the text after the last
    "/" of the path; it contains no "/", and the query string is not
    looked at. *)
Theorem parse_video_id_live (url : string) (parsed : ParseResult)
  (Hu : urlparse W url = Ok parsed)
  (Hlive : str_in "live" (path parsed) = true) :
  exists before id : string,
    parse_video_id W url = Ok id
    /\ path parsed = before ++ id
    /\ (before = "" \/ exists b : string, before = b ++ "/")
    /\ no_sep "/" id.
Proof.
  unfold parse_video_id. rewrite Hu. cbn [bind]. rewrite Hlive.
  destruct (last_split_on "/" (path parsed)) as (before & Heq & Hb & Hno).
  exists before, (last (split_on "/" (path parsed)) ""). auto.
Qed.

End ResolverFacts.

(** ** Worked inputs for the tools *)

Lemma parse_video_id_cases_witness :
  urlparse offline_world "dQw4w9WgXcQ"
  = Ok {| path := "dQw4w9WgXcQ"; query := "" |}
  /\ parse_video_id offline_world "dQw4w9WgXcQ" = Ok "dQw4w9WgXcQ"
  /\ (parse_video_id offline_world url_without_v = Raise (KeyError "v")
      <-> str_in "live" "/watch" = false
          /\ "t=5" <> ""
          /\ ((dict_get "v" (parse_qs offline_world "t=5") = None
               /\ KeyError "v" = KeyError "v")
              \/ (dict_get "v" (parse_qs offline_world "t=5") = Some []
                  /\ KeyError "v" = IndexError))).
Proof.
  split; [reflexivity|]. split.
  - exact (proj1 (parse_video_id_cases offline_world "dQw4w9WgXcQ" _ eq_refl)
             eq_refl eq_refl).
  - exact (proj2 (proj2 (parse_video_id_cases offline_world url_without_v
                           {| path := "/watch"; query := "t=5" |} eq_refl))
             (KeyError "v")).
Defined.

Lemma parse_video_id_live_witness :
  urlparse live_world "https://www.youtube.com/live/USTG6sQlB6s"
  = Ok {| path := "/live/USTG6sQlB6s"; query := "" |}
  /\ str_in "live" "/live/USTG6sQlB6s" = true
  /\ exists before id : string,
       parse_video_id live_world "https://www.youtube.com/live/USTG6sQlB6s"
       = Ok id
       /\ "/live/USTG6sQlB6s" = before ++ id
       /\ (before = "" \/ exists b : string, before = b ++ "/")
       /\ no_sep "/" id.
Proof.
  split; [reflexivity|]. split; [reflexivity|].
  exact (parse_video_id_live live_world
           "https://www.youtube.com/live/USTG6sQlB6s"
           {| path := "/live/USTG6sQlB6s"; query := "" |} eq_refl eq_refl).
Defined.

Lemma get_video_title_fallback_witness :
  parse_video_id offline_world "dQw4w9WgXcQ" = Ok "dQw4w9WgXcQ"
  /\ exists title : string,
       get_video_title offline_world "dQw4w9WgXcQ" = Ok title
       /\ ((exists response : Response,
              requests_get offline_world (oembed_url "dQw4w9WgXcQ")
              = Ok response
              /\ status_code response = 200%Z
              /\ json_title response = Ok title)
           \/ (title = "Video " ++ "dQw4w9WgXcQ"
               /\ forall (response : Response) (t : string),
                    requests_get offline_world (oembed_url "dQw4w9WgXcQ")
                    = Ok response ->
                    status_code response = 200%Z ->
                    json_title response <> Ok t)).
Proof.
  split; [reflexivity|].
  exact (get_video_title_fallback offline_world "dQw4w9WgXcQ" "dQw4w9WgXcQ"
           eq_refl).
Defined.

Lemma search_transcript_report_witness :
  parse_video_id online_world "dQw4w9WgXcQ" = Ok "dQw4w9WgXcQ"
  /\ fetch_english online_world "dQw4w9WgXcQ" = Ok peace_transcript
  /\ search_transcript ascii_lower online_world "dQw4w9WgXcQ" "War" 15
     = Ok "No matches found for 'War' in video: Peace talk".
Proof.
  split; [reflexivity|]. split; [reflexivity|].
  destruct (search_transcript_report ascii_lower online_world "dQw4w9WgXcQ"
              "dQw4w9WgXcQ" "War" 15 peace_transcript eq_refl eq_refl)
    as (title & Ht & Hnone & _).
  assert (title = "Peace talk") by (vm_compute in Ht; congruence).
  subst title. apply Hnone. reflexivity.
Defined.

Lemma tools_without_transcript_witness :
  parse_video_id offline_world "dQw4w9WgXcQ" = Ok "dQw4w9WgXcQ"
  /\ fetch_english offline_world "dQw4w9WgXcQ"
     = Raise (OtherError "transcripts disabled")
  /\ exists title : string,
       get_video_title offline_world "dQw4w9WgXcQ" = Ok title
       /\ get_full_transcript offline_world "dQw4w9WgXcQ"
          = Ok ("No transcript available for video: " ++ title ++ ")")
       /\ search_transcript ascii_lower offline_world "dQw4w9WgXcQ" "peace" 15
          = Ok ("No transcript available for video: " ++ title)
       /\ get_transcript_section offline_world "dQw4w9WgXcQ" 0 0
          = Ok ("No transcript available for video: " ++ title
                ++ " (ID: " ++ "dQw4w9WgXcQ" ++ ")").
Proof.
  split; [reflexivity|]. split; [reflexivity|].
  exact (tools_without_transcript ascii_lower offline_world "dQw4w9WgXcQ"
           "dQw4w9WgXcQ" "peace" 15 0 0 _ eq_refl eq_refl).
Defined.

Lemma full_transcript_is_whole_section_witness :
  parse_video_id online_world "dQw4w9WgXcQ" = Ok "dQw4w9WgXcQ"
  /\ fetch_english online_world "dQw4w9WgXcQ" = Ok peace_transcript
  /\ (forall x : Segment,
        In x peace_transcript -> (inject_Z 0 <= start x)%Q)
  /\ get_full_transcript online_world "dQw4w9WgXcQ"
     = Ok (join "" (map render_entry peace_transcript)).
Proof.
  assert (Hs : forall x : Segment,
             In x peace_transcript -> (inject_Z 0 <= start x)%Q).
  { intros x [<- | [<- | [<- | []]]]; vm_compute; discriminate. }
  split; [reflexivity|]. split; [reflexivity|]. split; [exact Hs|].
  exact (proj1 (full_transcript_is_whole_section online_world "dQw4w9WgXcQ"
                  "dQw4w9WgXcQ" peace_transcript 0 eq_refl eq_refl Hs)).
Defined.

(** ** Timestamps of fractional start times *)

Lemma Qfloor_div_pos (x : Q) (m : positive) :
  Qfloor (x / inject_Z (Zpos m)) = (Qfloor x / Zpos m)%Z.
Proof.
  destruct x as [n d]. unfold Qdiv, Qinv, Qmult, inject_Z, Qfloor.
  cbn [Qnum Qden]. rewrite Z.mul_1_r, Pos2Z.inj_mul.
  rewrite Z.div_div; [reflexivity | discriminate | reflexivity].
Qed.

Lemma pymod_num (x : Q) (m : positive) :
  let k := (Qfloor x / Zpos m)%Z in
  Qnum (pymod x (inject_Z (Zpos m))) = (Qnum x - Zpos m * k * Zpos (Qden x))%Z
  /\ Qden (pymod x (inject_Z (Zpos m))) = Qden x.
Proof.
  intros k. unfold pymod, floordiv. rewrite Qfloor_div_pos. fold k.
  destruct x as [n d]. unfold Qminus, Qplus, Qopp, Qmult, inject_Z.
  cbn [Qnum Qden]. split; [|now rewrite Pos.mul_1_r].
  change (Z.pos (1 * 1)) with 1%Z. lia.
Qed.

Lemma Qfloor_pymod (x : Q) (m : positive) :
  Qfloor (pymod x (inject_Z (Zpos m))) = (Qfloor x mod Zpos m)%Z.
Proof.
  destruct (pymod_num x m) as [Hn Hd].
  destruct (pymod x (inject_Z (Zpos m))) as [pn pd] eqn:Hp.
  cbn [Qnum Qden] in Hn, Hd. subst pn pd.
  destruct x as [n d]. cbn [Qnum Qden Qfloor].
  replace (n - Z.pos m * (n / Z.pos d / Z.pos m) * Z.pos d)%Z
    with (n + (- (Z.pos m * (n / Z.pos d / Z.pos m))) * Z.pos d)%Z by lia.
  rewrite Z.div_add by discriminate.
  rewrite (Z.mod_eq (n / Z.pos d) (Z.pos m)) by discriminate. lia.
Qed.

Lemma pymod_nonneg (x : Q) (m : positive) :
  (0 <= Qnum (pymod x (inject_Z (Zpos m))))%Z.
Proof.
  destruct (pymod_num x m) as [Hn _]. rewrite Hn.
  destruct x as [n d]. cbn [Qnum Qden Qfloor].
  pose proof (Z.mul_div_le n (Z.pos d) ltac:(lia)).
  pose proof (Z.mul_div_le (n / Z.pos d) (Z.pos m) ltac:(lia)).
  nia.
Qed.

Lemma int_of_nonneg (x : Q) : (0 <= Qnum x)%Z -> int_of x = Qfloor x.
Proof.
  destruct x as [n d]. unfold int_of, Qfloor. cbn [Qnum Qden]. intros H.
  apply Z.quot_div_nonneg; lia.
Qed.

(** The fraction of a second is dropped: a start time is written as the
    whole number of seconds below it.  The range is the one of start times,
    non-negative and below 2^53, where [//], [%] and [int()] on floats are
    exact. *)
Theorem format_timestamp_whole_seconds (seconds : Q)
  (Hrange : (0 <= seconds)%Q /\ (seconds < inject_Z (2 ^ 53))%Q) :
  format_timestamp seconds = format_timestamp (inject_Z (Qfloor seconds)).
Proof.
  clear Hrange.
  rewrite format_timestamp_int. unfold format_timestamp.
  change 3600%Q with (inject_Z (Zpos 3600)).
  change 60%Q with (inject_Z (Zpos 60)).
  unfold floordiv.
  rewrite !int_of_inject_Z, !Qfloor_div_pos, !Qfloor_pymod.
  rewrite (int_of_nonneg _ (pymod_nonneg seconds 60)), Qfloor_pymod.
  reflexivity.
Qed.

Lemma format_timestamp_whole_seconds_witness :
  ((0 <= 7531 # 2)%Q /\ (7531 # 2 < inject_Z (2 ^ 53))%Q)
  /\ format_timestamp (7531 # 2) = "01:02:45".
Proof.
  assert (Hrange : (0 <= 7531 # 2)%Q /\ (7531 # 2 < inject_Z (2 ^ 53))%Q)
    by (split; vm_compute; [discriminate | reflexivity]).
  split; [exact Hrange|].
  rewrite (format_timestamp_whole_seconds (7531 # 2) Hrange). reflexivity.
Defined.

(** ** Records of the primary pass, empty sections *)

Section PrimaryRecords.

Variable lower : string -> string.

(** When some segment contains the query, every record is about a segment
    that contains it, and so is the paired segment of a record flagged
    cross-segment. *)
Theorem primary_records_contain_query (td : TranscriptDict)
  (query : string) (w : Z) (r : MatchRecord)
  (Hhit : primary_pass lower (transcript_data td) (lower query) <> [])
  (Hr : In r (get_query_usages_with_context lower td query w)) :
  is_substring (lower query) (lower (text (match_ r)))
  /\ forall n : Segment,
       next_segment r = Some n ->
       is_substring (lower query) (lower (text n)).
Proof.
  apply record_in in Hr as (i & e & Hin & _ & ->).
  assert (Hm : find_matches lower (transcript_data td) (lower query)
               = primary_pass lower (transcript_data td) (lower query)).
  { unfold find_matches.
    destruct (primary_pass lower (transcript_data td) (lower query));
      [contradiction | reflexivity]. }
  rewrite Hm in *. cbn [match_ next_segment build_record]. split.
  - now apply primary_pass_spec in Hin.
  - intros n Hn. apply find_adjacent_some in Hn.
    now apply primary_pass_spec in Hn.
Qed.

End PrimaryRecords.

Lemma fetch_transcript_text_empty (W : World) (td : TranscriptDict)
  (start_time end_time : Z) :
  has_transcript td = true ->
  (fetch_transcript W td start_time end_time = Ok ""
   <-> slice_transcript (transcript_data td) start_time end_time = []).
Proof.
  intros Hav. unfold fetch_transcript. rewrite Hav.
  cbn [negb]. rewrite fetch_loop. cbn [append].
  destruct (slice_transcript _ _ _) as [|x l].
  - split; reflexivity.
  - change (map render_entry (x :: l))
      with (render_entry x :: map render_entry l).
    rewrite join_empty_cons. unfold render_entry at 1. simpl.
    split; discriminate.
Qed.

(** On an object with a transcript the text of a section is empty exactly
    when no entry starts in the requested range. *)
Theorem fetch_transcript_empty_iff (W : World) (td : TranscriptDict)
  (start_time end_time : Z)
  (Hav : has_transcript td = true) :
  fetch_transcript W td start_time end_time = Ok ""
  <-> forall x : Segment,
        In x (transcript_data td) ->
        ~ ((inject_Z start_time <= start x)%Q
           /\ (end_time = 0%Z \/ (start x <= inject_Z end_time)%Q)).
Proof.
  rewrite (fetch_transcript_text_empty W td start_time end_time Hav).
  unfold slice_transcript. split.
  - intros Hnil x Hx Hin.
    assert (H : In x (filter (in_slice start_time end_time)
                        (transcript_data td)))
      by (apply filter_In; split; [exact Hx | now apply in_slice_iff]).
    rewrite Hnil in H. contradiction.
  - intros Hnone.
    destruct (filter _ _) as [|x l] eqn:Hf; [reflexivity|].
    assert (H : In x (filter (in_slice start_time end_time)
                        (transcript_data td)))
      by (rewrite Hf; now left).
    apply filter_In in H as [Hx Hin]. apply in_slice_iff in Hin.
    exfalso. exact (Hnone x Hx Hin).
Qed.

Lemma primary_records_contain_query_witness :
  let r := build_record peace_transcript 15 (seg 5 "world peace") None in
  primary_pass ascii_lower peace_transcript (ascii_lower "Peace") <> []
  /\ In r (get_query_usages_with_context ascii_lower
             (available peace_transcript) "Peace" 15)
  /\ is_substring (ascii_lower "Peace") (ascii_lower (text (match_ r))).
Proof.
  intros r.
  assert (Hhit : primary_pass ascii_lower peace_transcript
                   (ascii_lower "Peace") <> []) by (vm_compute; discriminate).
  assert (Hr : In r (get_query_usages_with_context ascii_lower
                       (available peace_transcript) "Peace" 15))
    by (vm_compute; left; reflexivity).
  split; [exact Hhit|]. split; [exact Hr|].
  exact (proj1 (primary_records_contain_query ascii_lower
                  (available peace_transcript) "Peace" 15 r Hhit Hr)).
Defined.

Lemma fetch_transcript_empty_iff_witness :
  has_transcript (available peace_transcript) = true
  /\ (fetch_transcript offline_world (available peace_transcript) 11 0
      = Ok ""
      <-> forall x : Segment,
            In x peace_transcript ->
            ~ ((inject_Z 11 <= start x)%Q
               /\ (0%Z = 0%Z \/ (start x <= inject_Z 0)%Q))).
Proof.
  split; [reflexivity|].
  exact (fetch_transcript_empty_iff offline_world
           (available peace_transcript) 11 0 eq_refl).
Defined.
